(** * basketry/sorbet-http-client: the generator, embedded and verified

    The generator turns a basketry service description into Ruby/Sorbet
    source text: one HTTP client class per interface
    (http-client-factory.ts) and one module of mapping functions
    (mapper-factory.ts).  Generators ([function*]) are embedded as the list
    of lines they yield, template strings as concatenations, JavaScript
    [Map]s as insertion-ordered association lists where the code iterates
    over them and as [gmap]s where it only looks keys up.  Helpers imported
    from other packages are the fields of the class [Imports]. *)

From stdpp Require Import gmap strings list.
From Stdlib Require Import Ascii DecimalString.

(** ** JavaScript built-ins used by the generator *)

Module Js.

(** The one-character strings the templates need. *)
Definition LF : string := String (Ascii.ascii_of_nat 10) EmptyString.
Definition DQ : string := String (Ascii.ascii_of_nat 34) EmptyString.

(** [Array.prototype.join]. *)
Definition join (sep : string) (l : list string) : string :=
  String.concat sep l.

(** [String.prototype.split] with a non-empty separator: the text is cut
    at every occurrence of [sep], scanning from the left; [skip] counts the
    characters of a separator just recognised that are still to be dropped. *)
Fixpoint split_go (sep : string) (skip : nat) (s : string) : list string :=
  match s with
  | EmptyString => [EmptyString]
  | String c s' =>
      match skip with
      | S k => split_go sep k s'
      | O =>
          if String.prefix sep s
          then EmptyString :: split_go sep (String.length sep - 1) s'
          else match split_go sep 0 s' with
               | w :: ws => String c w :: ws
               | [] => [String c EmptyString]
               end
      end
  end.

Definition split (sep : string) (s : string) : list string :=
  split_go sep 0 s.

(** [startsWith], [endsWith], [substring(start)], [substring(start, end)]. *)
Definition startsWith (s pre : string) : bool := String.prefix pre s.

Definition endsWith (s suf : string) : bool :=
  let n := String.length s in
  let k := String.length suf in
  bool_decide (k ≤ n) && String.eqb (String.substring (n - k) k s) suf.

Definition substring (s : string) (a b : nat) : string :=
  let n := String.length s in
  let a' := a `min` n in
  let b' := b `min` n in
  String.substring (a' `min` b') ((a' `max` b') - (a' `min` b')) s.

Definition substring_from (s : string) (a : nat) : string :=
  substring s a (String.length s).

(** A string is truthy when it is not empty. *)
Definition truthy (s : string) : bool :=
  match s with EmptyString => false | String _ _ => true end.

(** Number to string, for the non-negative integers the IR carries. *)
Definition string_of_N (n : N) : string :=
  NilZero.string_of_uint (N.to_uint n).

(** [Array.prototype.sort(cmp)]: the sort is stable (ECMAScript 2019), so
    with a consistent comparator its result is the one of this insertion
    sort: an element goes in front of the first one it does not exceed. *)
Section Sort.
Context {A : Type} (cmp : A → A → Z).

Fixpoint sort_insert (x : A) (l : list A) : list A :=
  match l with
  | [] => [x]
  | y :: l' => if bool_decide (cmp x y ≤ 0)%Z then x :: y :: l'
               else y :: sort_insert x l'
  end.

Definition sort (l : list A) : list A := foldr sort_insert [] l.
End Sort.

(** [Map<string, V>] where the code iterates: entries in insertion order;
    [set] on a present key replaces the value and keeps the position. *)
Definition Map (V : Type) : Type := list (string * V).

Fixpoint Map_set {V} (k : string) (v : V) (m : Map V) : Map V :=
  match m with
  | [] => [(k, v)]
  | (k', v') :: m' =>
      if String.eqb k k' then (k, v) :: m' else (k', v') :: Map_set k v m'
  end.

Fixpoint Map_get {V} (k : string) (m : Map V) : option V :=
  match m with
  | [] => None
  | (k', v') :: m' => if String.eqb k k' then Some v' else Map_get k m'
  end.

Definition new_Map {V} (entries : list (string * V)) : Map V :=
  foldl (λ m e, Map_set e.1 e.2 m) [] entries.

(** [Array.from(new Set(xs))]: the distinct elements, first seen first. *)
Fixpoint distinct (seen : list string) (xs : list string) : list string :=
  match xs with
  | [] => []
  | x :: xs' =>
      if bool_decide (x ∈ seen) then distinct seen xs'
      else x :: distinct (x :: seen) xs'
  end.

End Js.

(** ** The service description (basketry's intermediate representation)

    Only the fields the generator reads are kept.  A [Literal<T>] of the IR
    is embedded as its [value]; source locations are dropped. *)

Record ValidationRule := { rule_id : string }.

(** What [buildTypeName] and [isRequired] read of a parameter, a property
    or a return type. *)
Record TypedValue := {
  typeName : string;
  isPrimitive : bool;
  isArray : bool;
  rules : list ValidationRule;
}.

(** [description?: string | Literal<string> | Literal<string>[]]. *)
Inductive Description :=
  | NoDescription
  | TextDescription (text : string)
  | LiteralDescription (value : string)
  | LinesDescription (lines : list string).

Record Parameter_ := {
  param_name : string;
  param_type : TypedValue;
}.

Record Property := {
  prop_name : string;
  prop_type : TypedValue;
}.

(** Security schemes are a tagged union; only the API-key variant carries
    a parameter name and a location. *)
Inductive SecurityScheme :=
  | BasicScheme (name : string)
  | ApiKeyScheme (name : string) (parameter : string) (location : string)
  | OAuth2Scheme (name : string).

Definition scheme_name (o : SecurityScheme) : string :=
  match o with
  | BasicScheme n | ApiKeyScheme n _ _ | OAuth2Scheme n => n
  end.

Record Method := {
  method_name : string;
  parameters : list Parameter_;
  returnType : option TypedValue;
  security : list (list SecurityScheme);
  method_description : Description;
}.

Record Interface := {
  int_name : string;
  int_description : Description;
  methods : list Method;
}.

Record Type_ := {
  type_name : string;
  properties : list Property;
}.

Record Enum := { enum_name : string }.

Record Service := {
  title : string;
  majorVersion : N;
  interfaces : list Interface;
  types : list Type_;
  enums : list Enum;
}.

Record HttpParameter := {
  hparam_name : string;
  hparam_in : string;
}.

Record HttpMethod := {
  hmethod_name : string;
  verb : string;
}.

Record HttpPath := {
  path : string;
  path_methods : list HttpMethod;
}.

(** ** Options (types.ts): every level is optional. *)

Record SorbetOptions := {
  magicComments : option (list string);
  fileIncludes : option (list string);
  interfacesModule : option string;
  lib : option string;
  type_overrides : option (gmap string string);
}.

Record SorbetHttpClientOptions := { sorbet : option SorbetOptions }.

Definition Options : Type := option SorbetHttpClientOptions.

Record File := {
  file_path : list string;
  contents : string;
}.

(** ** Helpers imported from other modules

    [case] ([snake], [pascal]), [basketry] ([allHttpPaths],
    [allParameters], [isRequired]), [@basketry/sorbet] (the name factory
    and [warning]), [./utils] ([block], [indent], [from]), and the two
    platform values [String.prototype.localeCompare] and [path.sep].
    [allHttpPaths] and [allParameters] are given as the sequences they
    enumerate, of which the generator reads [httpPath], respectively
    [method] and [httpParameter].  [block] and [indent] take the lines of
    their body; a body that is one string is the list of that one line. *)

Class Imports := {
  snake : string → string;
  pascal : string → string;
  allHttpPaths : Service → list (option HttpPath);
  allParameters : Service → list (Method * option HttpParameter);
  isRequired : TypedValue → bool;
  buildInterfaceName : Interface → string;
  buildInterfaceNamespace : Service → Options → string;
  buildMethodName : Method → string;
  buildParameterName : Parameter_ → string;
  buildPropertyName : Property → string;
  buildTypeName : TypedValue → Service → Options → bool → string;
  buildNamespace : option string → Service → Options → string;
  warning : Service → string;
  block : string → list string → list string;
  indent : list string → list string;
  from : list string → string;
  localeCompare : string → string → Z;
  sep : string;
}.

(** [options?.sorbet?.f]. *)
Definition sorbet_option {A} (options : Options) (f : SorbetOptions → option A)
  : option A :=
  match options with
  | Some o => match sorbet o with Some s => f s | None => None end
  | None => None
  end.

(** ** name-factory.ts *)

Module NameFactory.
Section Names.
Context `{Imports}.

Definition libFolder (options : Options) : list string :=
  match sorbet_option options lib with
  | Some l =>
      if Js.truthy l
      then filter (λ x, Js.truthy x = true ∧ x ≠ "." ∧ x ≠ "..") (Js.split sep l)
      else ["app"; "lib"]
  | None => ["app"; "lib"]
  end.

Definition buildClientName (int : Interface) : string :=
  pascal (int_name int +:+ "_http_client").

Definition buildClientNamespace (service : Service) (options : Options) : string :=
  buildNamespace (sorbet_option options interfacesModule) service options.

Definition buildClientFilepath (int : Interface) (service : Service)
    (options : Options) : list string :=
  let namespace := buildClientNamespace service options in
  libFolder options
  ++ (snake <$> Js.split "::" namespace)
  ++ [snake (buildClientName int) +:+ ".rb"].

Definition buildMapperName : string := pascal "HttpClientHelpers".

Definition buildMapperNamespace (service : Service) (options : Options) : string :=
  buildNamespace None service options.

Definition buildMapperFilepath (service : Service) (options : Options)
  : list string :=
  let namespace := buildMapperNamespace service options in
  libFolder options
  ++ (snake <$> Js.split "::" namespace)
  ++ [snake buildMapperName +:+ ".rb"].

End Names.
End NameFactory.

(** ** http-client-factory.ts *)

Module HttpClientFactory.
Section Builder.
Context `{Imports}.

Definition uri : string := "safe_internal_uri".
Definition req : string := "safe_internal_req".
Definition res : string := "safe_internal_res".
Definition apiRoot : string := snake "apiRoot".

(** [from(lines)]: the local definition, [Array.from(lines).join('\n')]. *)
Definition from_lines (lines : list string) : string := Js.join Js.LF lines.

(** The operation-binding index: the map [getHttp] builds on its first
    call for a service object. *)
Definition http_map (service : Service) : gmap string (HttpMethod * HttpPath) :=
  foldl (λ map ctx,
           match ctx with
           | None => map
           | Some httpPath =>
               foldl (λ map httpMethod,
                        <[snake (hmethod_name httpMethod) := (httpMethod, httpPath)]> map)
                     map (path_methods httpPath)
           end)
        ∅ (allHttpPaths service).

(** [getHttp] with the entry of [httpPathCache] for the service object as
    explicit state: absent before the first call, which builds and stores
    the map; every call reads the stored map. *)
Definition getHttp_cached (entry : option (gmap string (HttpMethod * HttpPath)))
    (service : Service) (methodName : string)
  : option (HttpMethod * HttpPath) * option (gmap string (HttpMethod * HttpPath)) :=
  let map := match entry with
             | None => http_map service
             | Some map => map
             end in
  (map !! snake methodName, Some map).

(** The IR is not mutated during a pass, so the stored map is the one a
    call would build: [getHttp] is the lookup in that map. *)
Definition getHttp (service : Service) (methodName : string)
  : option (HttpMethod * HttpPath) :=
  (getHttp_cached None service methodName).1.

(** The parameter-binding index, keyed by [snake(m)|||snake(p)]. *)
Definition key (m p : string) : string := snake m +:+ "|||" +:+ snake p.

Definition http_parameter_map (service : Service) : gmap string HttpParameter :=
  foldl (λ map ctx,
           match ctx.2 with
           | None => map
           | Some httpParameter =>
               <[key (method_name ctx.1) (hparam_name httpParameter) := httpParameter]> map
           end)
        ∅ (allParameters service).

Definition getHttpParameter_cached (entry : option (gmap string HttpParameter))
    (service : Service) (methodName parameterName : string)
  : option HttpParameter * option (gmap string HttpParameter) :=
  let map := match entry with
             | None => http_parameter_map service
             | Some map => map
             end in
  (map !! key methodName parameterName, Some map).

Definition getHttpParameter (service : Service) (methodName parameterName : string)
  : option HttpParameter :=
  (getHttpParameter_cached None service methodName parameterName).1.

(** [sortParameters]: required parameters get key 0, optional ones key 1. *)
Definition required_rank (p : Parameter_) : Z :=
  if isRequired (param_type p) then 0 else 1.

Definition sortParameters (parameters : list Parameter_) : list Parameter_ :=
  Js.sort (λ a b, required_rank a - required_rank b)%Z parameters.

Definition comment (text : Description) : list string :=
  match text with
  | LinesDescription lines => (λ line, "# " +:+ line) <$> lines
  | TextDescription text => ["# " +:+ text]
  | LiteralDescription value => ["# " +:+ value]
  | NoDescription => []
  end.

Definition magicComments_lines (options : Options) : list string :=
  match sorbet_option options magicComments with
  | Some (c :: cs) => ((λ magicComment, "# " +:+ magicComment) <$> (c :: cs)) ++ [EmptyString]
  | _ => []
  end.

(** The entries of [paramsByName], shared by the URI, query, header and
    body builders. *)
Definition paramsByName (service : Service) (method : Method)
  : Js.Map (Parameter_ * option HttpParameter) :=
  Js.new_Map
    ((λ p, (param_name p,
            (p, getHttpParameter service (method_name method) (param_name p))))
       <$> parameters method).

Definition getParamName (seg : string) : option string :=
  if Js.startsWith seg ":" then Some (Js.substring_from seg 1)
  else if Js.startsWith seg "{" && Js.endsWith seg "}"
       then Some (Js.substring seg 1 (String.length seg - 1))
       else None.

Definition substitute_segment (service : Service) (method : Method) (seg : string)
  : string :=
  match getParamName seg with
  | None => seg
  | Some paramName =>
      if negb (Js.truthy paramName) then seg
      else match Js.Map_get paramName (paramsByName service method) with
           | Some (param, Some httpParam) =>
               if negb (String.eqb (hparam_in httpParam) "path") then seg
               else "#{" +:+ buildParameterName param +:+ "}"
           | _ => seg
           end
  end.

Definition buildUri (service : Service) (httpPath : HttpPath) (method : Method)
  : string :=
  let subpath :=
    Js.join "/" (substitute_segment service method <$> Js.split "/" (path httpPath)) in
  "#{@" +:+ apiRoot +:+ "}/v" +:+ Js.string_of_N (majorVersion service) +:+ subpath.

(** The second map of [buildQuery]: the entries bound to [query]. *)
Definition query_map (service : Service) (method : Method)
  : Js.Map (Parameter_ * HttpParameter) :=
  foldl (λ map e,
           match e.2.2 with
           | Some queryParam =>
               if String.eqb (hparam_in queryParam) "query"
               then Js.Map_set e.1 (e.2.1, queryParam) map
               else map
           | None => map
           end)
        [] (paramsByName service method).

Definition query_entry (e : string * (Parameter_ * HttpParameter)) : string :=
  "'" +:+ e.1 +:+ "': " +:+ buildParameterName e.2.1 +:+ ",".

Definition buildQuery (service : Service) (method : Method) : list string :=
  let map := query_map service method in
  match map with
  | [] => []
  | _ =>
      [uri +:+ ".query = URI.encode_www_form("]
      ++ indent (["{"] ++ indent (query_entry <$> map) ++ ["}.compact"])
      ++ [")"]
  end.

Definition buildHeaders (service : Service) (method : Method) : list string :=
  let schemes := concat (security method) in
  omap (λ scheme,
          match scheme with
          | ApiKeyScheme name parameter location =>
              if String.eqb location "header"
              then Some (req +:+ "['" +:+ parameter +:+ "'] = @" +:+ snake name)
              else None
          | _ => None
          end) schemes
  ++ omap (λ e,
             match e.2.2 with
             | Some httpParam =>
                 if String.eqb (hparam_in httpParam) "header"
                 then Some (req +:+ "['" +:+ hparam_name httpParam +:+ "'] = "
                            +:+ buildParameterName e.2.1)
                 else None
             | None => None
             end) (paramsByName service method).

Definition buildBody (service : Service) (method : Method) : list string :=
  omap (λ e,
          match e.2.2 with
          | Some httpParam =>
              if String.eqb (hparam_in httpParam) "body"
              then
                let param := e.2.1 in
                let paramName := buildParameterName param in
                Some (req +:+ ".body = map_" +:+ snake (typeName (param_type param))
                      +:+ "_to_dto(" +:+ paramName +:+ ").to_s"
                      +:+ (if isRequired (param_type param) then EmptyString
                           else " if !" +:+ paramName +:+ ".nil?"))
              else None
          | None => None
          end) (paramsByName service method).

Definition buildReturn (method : Method) : list string :=
  match returnType method with
  | Some returnType =>
      ["map_dto_to_" +:+ snake (typeName returnType)
       +:+ "(JSON.parse(" +:+ res +:+ ".body))"]
  | None => []
  end.


Definition signature_parameter (service : Service) (options : Options)
    (count : nat) (i : nat) (param : Parameter_) : string :=
  let comma := if bool_decide (i = count - 1) then EmptyString else "," in
  let typeName := buildTypeName (param_type param) service options false in
  let nilableTypeName :=
    if isRequired (param_type param) then typeName
    else "T.nilable(" +:+ typeName +:+ ")" in
  buildParameterName param +:+ ": " +:+ nilableTypeName +:+ comma.

Definition buildSignatureParameters (service : Service) (options : Options)
    (method : Method) : list string :=
  indent (imap (signature_parameter service options (length (parameters method)))
               (sortParameters (parameters method))).

Definition buildSignature (service : Service) (options : Options)
    (method : Method) : list string :=
  match returnType method with
  | Some returnType =>
      let typeName := buildTypeName returnType service options false in
      match parameters method with
      | _ :: _ =>
          block "sig do"
            (["override.params("]
             ++ buildSignatureParameters service options method
             ++ [").returns("]
             ++ indent [typeName]
             ++ [")"])
      | [] => ["sig { override.returns(" +:+ typeName +:+ ") }"]
      end
  | None =>
      match parameters method with
      | _ :: _ =>
          block "sig do"
            (["override.params("]
             ++ buildSignatureParameters service options method
             ++ [").void"])
      | [] => ["sig { override.void }"]
      end
  end.

Definition definition_parameter (param : Parameter_) : string :=
  buildParameterName param +:+ ":"
  +:+ (if isRequired (param_type param) then EmptyString else " nil").

Definition definition_parameters (method : Method) : string :=
  match parameters method with
  | _ :: _ =>
      "(" +:+ Js.join ", " (definition_parameter <$> sortParameters (parameters method))
      +:+ ")"
  | [] => EmptyString
  end.

Definition definition_body (service : Service) (httpMethod : HttpMethod)
    (httpPath : HttpPath) (method : Method) : list string :=
  [uri +:+ " = URI(" +:+ Js.DQ +:+ buildUri service httpPath method +:+ Js.DQ +:+ ")"]
  ++ buildQuery service method
  ++ [req +:+ " = Net::HTTP::" +:+ pascal (verb httpMethod) +:+ ".new(" +:+ uri +:+ ")"]
  ++ buildHeaders service method
  ++ buildBody service method
  ++ [(match returnType method with
       | Some _ => res +:+ " = "
       | None => EmptyString
       end)
      +:+ "Net::HTTP.start(" +:+ uri +:+ ".hostname, " +:+ uri
      +:+ ".port) { |http| http.request(" +:+ req +:+ ") }"]
  ++ buildReturn method.

Definition buildDefinition (service : Service) (method : Method) : list string :=
  match getHttp service (method_name method) with
  | Some (httpMethod, httpPath) =>
      block ("def " +:+ buildMethodName method +:+ definition_parameters method)
            (definition_body service httpMethod httpPath method)
  | None => []
  end.

Definition buildInitializer (int : Interface) : list string :=
  let names :=
    Js.distinct []
      (methods int ≫= λ m, (λ o, snake (scheme_name o)) <$> concat (security m)) in
  let comma := match names with [] => EmptyString | _ => ", " end in
  ["sig { params(" +:+ apiRoot +:+ ": String" +:+ comma
   +:+ Js.join ", " ((λ n, n +:+ ": String") <$> names) +:+ ").void }"]
  ++ block ("def initialize(" +:+ apiRoot +:+ ":" +:+ comma
            +:+ Js.join ", " ((λ n, n +:+ ":") <$> names) +:+ ")")
           (["@" +:+ apiRoot +:+ " = " +:+ apiRoot]
            ++ ((λ n, "@" +:+ n +:+ " = " +:+ n) <$> names)).

(** What the loop over the sorted methods yields for one method. *)
Definition method_lines (service : Service) (options : Options)
    (method : Method) : list string :=
  [EmptyString]
  ++ comment (method_description method)
  ++ buildSignature service options method
  ++ buildDefinition service method.

Definition sorted_methods (int : Interface) : list Method :=
  Js.sort (λ a b, localeCompare (method_name a) (method_name b)) (methods int).

Definition class_body (service : Service) (options : Options) (int : Interface)
  : list string :=
  ["extend T::Sig";
   EmptyString;
   "include " +:+ buildInterfaceNamespace service options +:+ "::"
     +:+ buildInterfaceName int;
   "include " +:+ NameFactory.buildMapperNamespace service options +:+ "::"
     +:+ NameFactory.buildMapperName;
   EmptyString]
  ++ buildInitializer int
  ++ (sorted_methods int ≫= method_lines service options).

Definition buildClient (service : Service) (options : Options) (int : Interface)
  : list string :=
  [warning service; EmptyString]
  ++ magicComments_lines options
  ++ ["# typed: strict"; EmptyString]
  ++ (match sorbet_option options fileIncludes with
      | Some (i :: rest) =>
          ((λ include, "require '" +:+ include +:+ "'") <$> (i :: rest))
          ++ [EmptyString]
      | _ => []
      end)
  ++ comment (int_description int)
  ++ block ("module " +:+ buildInterfaceNamespace service options)
           (block ("class " +:+ pascal (int_name int) +:+ "HttpClient")
                  (class_body service options int))
  ++ [EmptyString].

Definition buildClientFile (service : Service) (options : Options)
    (int : Interface) : File :=
  {| file_path := NameFactory.buildClientFilepath int service options;
     contents := from_lines (buildClient service options int) |}.

Definition build (service : Service) (options : Options) : list File :=
  buildClientFile service options <$> interfaces service.

Definition generateClients (service : Service) (options : Options) : list File :=
  build service options.

End Builder.
End HttpClientFactory.

(** ** mapper-factory.ts *)

Module MapperFactory.
Section Builder.
Context `{Imports}.

(** [const override = this.options?.sorbet?.types?.[name]; if (override)]:
    the entry counts when it is present and not the empty string.  The map
    holds the entries of the [types] object itself. *)
Definition types_entry (options : Options) (name : string) : option string :=
  match sorbet_option options type_overrides with
  | Some overrides => overrides !! name
  | None => None
  end.

Definition override_for (options : Options) (name : string) : option string :=
  match types_entry options name with
  | Some override => if Js.truthy override then Some override else None
  | None => None
  end.

Definition default_cast (primitive baseCase : string) : string :=
  if String.eqb primitive "boolean"
  then "ActiveModel::Type::Boolean.new.cast(" +:+ baseCase +:+ ")"
  else if String.eqb primitive "date" then "Date.parse(" +:+ baseCase +:+ ")"
  else if String.eqb primitive "date-time" then "DateTime.parse(" +:+ baseCase +:+ ")"
  else if String.eqb primitive "double" || String.eqb primitive "float"
          || String.eqb primitive "number"
  then "Float(" +:+ baseCase +:+ ")"
  else if String.eqb primitive "integer" || String.eqb primitive "long"
  then "Integer(" +:+ baseCase +:+ ", 10)"
  else baseCase.

Definition buildPrimitiveCast (options : Options) (primitive baseCase : string)
  : string :=
  match override_for options primitive with
  | Some override => override +:+ "(" +:+ baseCase +:+ ")"
  | None => default_cast primitive baseCase
  end.

Definition buildPropCast (options : Options) (typeName : string)
    (isPrimitive : bool) (baseCase : string) : string :=
  if isPrimitive then
    match override_for options typeName with
    | Some override => override +:+ "(" +:+ baseCase +:+ ".to_s)"
    | None =>
        let casted := buildPrimitiveCast options typeName baseCase in
        if String.eqb casted baseCase then baseCase
        else baseCase +:+ ".is_a?(String) ? " +:+ casted +:+ " : " +:+ baseCase
    end
  else "map_dto_to_" +:+ snake typeName +:+ "(" +:+ baseCase +:+ ")".

Definition buildDtoPropCast (typeName : string) (isPrimitive : bool)
    (baseCase : string) : string :=
  if isPrimitive then
    if String.eqb typeName "date" then baseCase +:+ "&.to_s"
    else if String.eqb typeName "date-time" then baseCase +:+ "&.utc&.iso8601"
    else baseCase
  else "map_" +:+ snake typeName +:+ "_to_dto(" +:+ baseCase +:+ ")".

Definition buildFullyQualifiedTypeName (service : Service) (options : Options)
    (name : string) : string :=
  buildTypeName
    {| typeName := name; isPrimitive := false; isArray := false; rules := [] |}
    service options true.

(** One argument of [Struct.new(...)] in the DTO-to-struct function. *)
Definition struct_argument (options : Options) (count : nat) (i : nat)
    (prop : Property) : string :=
  let comma := if bool_decide (i < count - 1) then "," else EmptyString in
  let t := prop_type prop in
  if isArray t
  then buildPropertyName prop +:+ ": dto['" +:+ prop_name prop
       +:+ "']&.map { |item| "
       +:+ buildPropCast options (typeName t) (isPrimitive t) "item"
       +:+ " }" +:+ comma
  else buildPropertyName prop +:+ ": "
       +:+ buildPropCast options (typeName t) (isPrimitive t)
             ("dto['" +:+ prop_name prop +:+ "']")
       +:+ comma.

(** One entry of the hash literal in the struct-to-DTO function. *)
Definition dto_entry (type : Type_) (prop : Property) : string :=
  let t := prop_type prop in
  if isArray t
  then "'" +:+ prop_name prop +:+ "': " +:+ snake (type_name type) +:+ "."
       +:+ buildPropertyName prop +:+ "&.map { |item| "
       +:+ buildDtoPropCast (typeName t) (isPrimitive t) "item" +:+ " },"
  else "'" +:+ prop_name prop +:+ "': "
       +:+ buildDtoPropCast (typeName t) (isPrimitive t)
             (snake (type_name type) +:+ "." +:+ buildPropertyName prop)
       +:+ ",".

Definition dto_to_struct (service : Service) (options : Options) (type : Type_)
  : list string :=
  let struct := buildFullyQualifiedTypeName service options (type_name type) in
  ["def map_dto_to_" +:+ snake (type_name type) +:+ "(dto)"]
  ++ indent ([struct +:+ ".new("]
             ++ indent (imap (struct_argument options (length (properties type)))
                             (properties type))
             ++ [")"])
  ++ ["rescue StandardError"]
  ++ indent ["dto"]
  ++ ["end"].

Definition struct_to_dto (type : Type_) : list string :=
  ["def map_" +:+ snake (type_name type) +:+ "_to_dto("
   +:+ snake (type_name type) +:+ ")"]
  ++ indent (["{"]
             ++ indent (dto_entry type <$> properties type)
             ++ ["}.compact"])
  ++ ["rescue StandardError"]
  ++ indent [snake (type_name type)]
  ++ ["end"].

Definition dto_to_enum (service : Service) (options : Options) (e : Enum)
  : list string :=
  ["def map_dto_to_" +:+ snake (enum_name e) +:+ "(dto)"]
  ++ indent [buildFullyQualifiedTypeName service options (enum_name e)
             +:+ ".deserialize(dto)"]
  ++ ["rescue StandardError"]
  ++ indent ["dto"]
  ++ ["end"].

Definition enum_to_dto (e : Enum) : list string :=
  ["def map_" +:+ snake (enum_name e) +:+ "_to_dto(enum)"]
  ++ indent ["enum&.serialize"]
  ++ ["rescue StandardError"]
  ++ indent ["enum"]
  ++ ["end"].

Definition cast_primitive (options : Options) (primitive : string) : list string :=
  ["def cast_" +:+ snake primitive +:+ "(param)"]
  ++ indent [buildPrimitiveCast options primitive "param" +:+ " if !param.nil?"]
  ++ ["rescue StandardError"]
  ++ indent ["param"]
  ++ ["end"].

Definition cast_primitive_array (options : Options) (primitive : string)
  : list string :=
  ["def cast_" +:+ snake primitive +:+ "_array(param)"]
  ++ indent ["param&.map { |item| " +:+ buildPrimitiveCast options primitive "item"
             +:+ " if !item.nil? }"]
  ++ ["rescue StandardError"]
  ++ indent ["param"]
  ++ ["end"].

(** The two sets of the builder: nothing ever adds to them. *)
Definition castPrimitive : list string := [].
Definition castPrimitiveArray : list string := [].

(** A [for] loop of [buildMapper], threading [hasWritten]: a blank line
    goes before every item but the very first one written. *)
Fixpoint for_each {A} (body : A → list string) (hasWritten : bool) (xs : list A)
  : list string * bool :=
  match xs with
  | [] => ([], hasWritten)
  | x :: xs' =>
      let r := for_each body true xs' in
      ((if hasWritten then [EmptyString] else []) ++ body x ++ r.1, r.2)
  end.

Definition module_body (service : Service) (options : Options) : list string :=
  let r1 :=
    for_each (λ type, dto_to_struct service options type
                      ++ [EmptyString] ++ struct_to_dto type)
             false (types service) in
  let r2 :=
    for_each (λ e, dto_to_enum service options e ++ [EmptyString] ++ enum_to_dto e)
             r1.2 (enums service) in
  let r3 := for_each (cast_primitive options) r2.2 castPrimitive in
  let r4 := for_each (cast_primitive_array options) r3.2 castPrimitiveArray in
  r1.1 ++ r2.1 ++ r3.1 ++ r4.1.

Definition buildMapper (service : Service) (options : Options) : list string :=
  [warning service; EmptyString]
  ++ (match sorbet_option options magicComments with
      | Some (c :: cs) =>
          ((λ magicComment, "# " +:+ magicComment) <$> (c :: cs)) ++ [EmptyString]
      | _ => []
      end)
  ++ block ("module " +:+ buildNamespace None service options)
           (block ("module " +:+ NameFactory.buildMapperName)
                  (module_body service options))
  ++ [EmptyString].

Definition buildMapperFile (service : Service) (options : Options) : File :=
  {| file_path := NameFactory.buildMapperFilepath service options;
     contents := from (buildMapper service options) |}.

Definition build (service : Service) (options : Options) : list File :=
  [buildMapperFile service options].

Definition generateMapper (service : Service) (options : Options) : list File :=
  build service options.

End Builder.
End MapperFactory.

(** ** index.ts *)

Definition generator `{Imports} (service : Service) (options : Options)
  : list File :=
  HttpClientFactory.generateClients service options
  ++ MapperFactory.generateMapper service options.

(** ** A concrete instance of the imported helpers

    Used to run the generator on examples; the general properties hold for
    every instance.  [snake] and [pascal] follow the [case] package on
    plain ASCII identifiers ([fooBar], [FooBar], [foo-bar], [foo_bar]),
    [indent] puts two spaces before a line that is not empty, [block]
    closes the indented body with [end], names are built by snake- and
    Pascal-casing, and a value is required when it has a rule with the id
    [required]; the two enumerations of binding metadata are arguments. *)

Module Reference.

Definition is_upper (c : Ascii.ascii) : bool :=
  let n := Ascii.nat_of_ascii c in bool_decide (65 ≤ n ≤ 90).
Definition is_lower (c : Ascii.ascii) : bool :=
  let n := Ascii.nat_of_ascii c in bool_decide (97 ≤ n ≤ 122).
Definition is_digit (c : Ascii.ascii) : bool :=
  let n := Ascii.nat_of_ascii c in bool_decide (48 ≤ n ≤ 57).
Definition is_separator (c : Ascii.ascii) : bool :=
  let n := Ascii.nat_of_ascii c in
  bool_decide (n = 32 ∨ n = 45 ∨ n = 46 ∨ n = 95).
Definition to_lower (c : Ascii.ascii) : Ascii.ascii :=
  if is_upper c then Ascii.ascii_of_nat (Ascii.nat_of_ascii c + 32) else c.
Definition to_upper (c : Ascii.ascii) : Ascii.ascii :=
  if is_lower c then Ascii.ascii_of_nat (Ascii.nat_of_ascii c - 32) else c.

(** [snake]: words are cut at separators and before a capital that follows
    a small letter or a digit, put in lower case and joined by [_]. *)
Fixpoint snake_go (after_word : bool) (s : string) : string :=
  match s with
  | EmptyString => EmptyString
  | String c s' =>
      if is_separator c then "_" +:+ snake_go false s'
      else if is_upper c && after_word
      then "_" +:+ String (to_lower c) (snake_go false s')
      else String (to_lower c) (snake_go (is_lower c || is_digit c) s')
  end.

Definition snake (s : string) : string := snake_go false s.

(** [pascal]: the same words, each with a capital first letter, joined. *)
Fixpoint pascal_go (word_start : bool) (s : string) : string :=
  match s with
  | EmptyString => EmptyString
  | String c s' =>
      if is_separator c then pascal_go true s'
      else String (if word_start then to_upper c else c) (pascal_go false s')
  end.

Definition pascal (s : string) : string := pascal_go true s.

Definition isRequired (t : TypedValue) : bool :=
  bool_decide (Exists (λ r, rule_id r = "required") (rules t)).

Definition indent (lines : list string) : list string :=
  (λ line, if Js.truthy line then "  " +:+ line else line) <$> lines.

Definition block (line : string) (body : list string) : list string :=
  [line] ++ indent body ++ ["end"].

Definition localeCompare (a b : string) : Z :=
  match String.compare a b with
  | Lt => (-1)%Z
  | Eq => 0%Z
  | Gt => 1%Z
  end.

Definition buildNamespace (module : option string) (service : Service)
    (options : Options) : string :=
  match module with
  | Some m => pascal (title service) +:+ "::" +:+ pascal m
  | None => pascal (title service)
  end.

Definition buildTypeName (t : TypedValue) (service : Service)
    (options : Options) (skipArrayify : bool) : string :=
  let base :=
    if isPrimitive t then pascal (typeName t)
    else pascal (title service) +:+ "::" +:+ pascal (typeName t) in
  if isArray t && negb skipArrayify then "T::Array[" +:+ base +:+ "]" else base.

Definition imports (paths : list (option HttpPath))
    (bindings : list (Method * option HttpParameter)) : Imports :=
  Build_Imports
    snake
    pascal
    (λ _, paths)
    (λ _, bindings)
    isRequired
    (λ int, pascal (int_name int))
    (buildNamespace None)
    (λ m, snake (method_name m))
    (λ p, snake (param_name p))
    (λ p, snake (prop_name p))
    buildTypeName
    buildNamespace
    (λ service, "# This code was generated from " +:+ title service)
    block
    indent
    (Js.join Js.LF)
    localeCompare
    "/".

End Reference.

(** ** Vocabulary of the properties *)

(** [String.prototype.includes]. *)
Definition includes (s sub : string) : bool :=
  match String.index 0 sub s with Some _ => true | None => false end.

(** The text after the first [k] characters. *)
Fixpoint string_drop (k : nat) (s : string) : string :=
  match k, s with
  | S k', String _ s' => string_drop k' s'
  | _, _ => s
  end.

Section Vocabulary.
Context `{Imports}.

(** The (method, path) pairs the operation index is built from, in the
    order [getHttp] enumerates them. *)
Definition bindings (service : Service) : list (HttpMethod * HttpPath) :=
  allHttpPaths service ≫= λ ctx,
    match ctx with
    | None => []
    | Some httpPath => (λ httpMethod, (httpMethod, httpPath)) <$> path_methods httpPath
    end.

(** The last of the bindings whose normalised method name is [name]. *)
Definition last_binding (service : Service) (name : string)
  : option (HttpMethod * HttpPath) :=
  last (filter (λ b, snake (hmethod_name b.1) = name) (bindings service)).

(** A path segment [:name] or [{name}]. *)
Definition is_placeholder (seg name : string) : Prop :=
  seg = ":" +:+ name ∨ seg = "{" +:+ name +:+ "}".

(** The parameter of the method a name denotes: as [new Map(...)] resolves
    a repeated name, the last one declared with it. *)
Definition names_parameter (method : Method) (name : string) (p : Parameter_)
  : Prop :=
  last (filter (λ p, param_name p = name) (parameters method)) = Some p.

(** The segment is a placeholder for the parameter [p], which resolves to
    the location [path]. *)
Definition path_bound (service : Service) (method : Method) (seg : string)
    (p : Parameter_) : Prop :=
  ∃ name httpParam,
    name ≠ EmptyString
    ∧ is_placeholder seg name
    ∧ names_parameter method name p
    ∧ HttpClientFactory.getHttpParameter service (method_name method) (param_name p)
      = Some httpParam
    ∧ hparam_in httpParam = "path".

(** What a segment of the path template becomes in the URI. *)
Inductive segment_result (service : Service) (method : Method) (seg : string)
  : string → Prop :=
  | segment_substituted p :
      path_bound service method seg p →
      segment_result service method seg ("#{" +:+ buildParameterName p +:+ "}")
  | segment_literal :
      (∀ p, ¬ path_bound service method seg p) →
      segment_result service method seg seg.

(** Required parameters first, then the optional ones, each group in
    declaration order. *)
Definition required_first (ps : list Parameter_) : list Parameter_ :=
  filter (λ p, isRequired (param_type p) = true) ps
  ++ filter (λ p, isRequired (param_type p) = false) ps.

(** Blocks of lines with one blank line between two of them. *)
Fixpoint separated (blocks : list (list string)) : list string :=
  match blocks with
  | [] => []
  | [b] => b
  | b :: bs => b ++ [EmptyString] ++ separated bs
  end.

(** The mapping functions of a service, in the order they are written. *)
Definition mapping_functions (service : Service) (options : Options)
  : list (list string) :=
  (types service ≫= λ type,
     [MapperFactory.dto_to_struct service options type;
      MapperFactory.struct_to_dto type])
  ++ (enums service ≫= λ e,
        [MapperFactory.dto_to_enum service options e;
         MapperFactory.enum_to_dto e]).

(** A defensive cast of [baseCase]: the value itself, or a conversion
    applied only to strings. *)
Definition guarded (baseCase casted : string) : string :=
  baseCase +:+ ".is_a?(String) ? " +:+ casted +:+ " : " +:+ baseCase.

Definition defensive (baseCase result : string) : Prop :=
  result = baseCase ∨ ∃ casted, result = guarded baseCase casted.

(** The cast rule of the struct-to-DTO direction. *)
Definition dto_rule (typeName baseCase : string) : string :=
  if decide (typeName = "date") then baseCase +:+ "&.to_s"
  else if decide (typeName = "date-time") then baseCase +:+ "&.utc&.iso8601"
  else baseCase.

End Vocabulary.

(** ** Example inputs *)

Module Examples.

Definition string_type (required : bool) : TypedValue :=
  {| typeName := "string"; isPrimitive := true; isArray := false;
     rules := if required then [{| rule_id := "required" |}] else [] |}.

Definition integer_type (required : bool) : TypedValue :=
  {| typeName := "integer"; isPrimitive := true; isArray := false;
     rules := if required then [{| rule_id := "required" |}] else [] |}.

Definition widget_type : TypedValue :=
  {| typeName := "widget"; isPrimitive := false; isArray := false; rules := [] |}.

Definition id_param : Parameter_ :=
  {| param_name := "id"; param_type := string_type true |}.

Definition expand_param : Parameter_ :=
  {| param_name := "expand"; param_type := string_type false |}.

Definition pageSize_param : Parameter_ :=
  {| param_name := "pageSize"; param_type := integer_type false |}.

(** [GetWidget], bound to [GET /widgets/:id]; the optional parameter is
    declared first. *)
Definition getWidget : Method :=
  {| method_name := "getWidget";
     parameters := [expand_param; id_param];
     returnType := Some widget_type;
     security := [];
     method_description := NoDescription |}.

Definition listWidgets : Method :=
  {| method_name := "listWidgets";
     parameters := [pageSize_param];
     returnType := None;
     security := [];
     method_description := NoDescription |}.

(** A method without any HTTP binding. *)
Definition ping : Method :=
  {| method_name := "ping";
     parameters := [];
     returnType := None;
     security := [];
     method_description := NoDescription |}.

Definition widgets : Interface :=
  {| int_name := "widgets";
     int_description := NoDescription;
     methods := [getWidget; listWidgets; ping] |}.

Definition id_prop : Property :=
  {| prop_name := "id"; prop_type := string_type true |}.

Definition born_prop : Property :=
  {| prop_name := "born";
     prop_type := {| typeName := "date"; isPrimitive := true;
                     isArray := false; rules := [] |} |}.

Definition widget : Type_ :=
  {| type_name := "widget"; properties := [id_prop; born_prop] |}.

Definition shop : Service :=
  {| title := "shop";
     majorVersion := 1;
     interfaces := [widgets];
     types := [widget];
     enums := [{| enum_name := "color" |}] |}.

Definition get_widget_binding : HttpMethod :=
  {| hmethod_name := "getWidget"; verb := "get" |}.

Definition list_widgets_binding : HttpMethod :=
  {| hmethod_name := "listWidgets"; verb := "get" |}.

Definition widget_path : HttpPath :=
  {| path := "/widgets/:id"; path_methods := [get_widget_binding] |}.

Definition widgets_path : HttpPath :=
  {| path := "/widgets"; path_methods := [list_widgets_binding] |}.

Definition paths : list (option HttpPath) :=
  [Some widget_path; Some widgets_path].

(** A template with a placeholder that names no parameter of the method. *)
Definition part_path : HttpPath :=
  {| path := "/widgets/:id/parts/{part}"; path_methods := [get_widget_binding] |}.

(** The parameter bindings: a binding carries the name of the parameter
    it is enumerated with; [expand] has none. *)
Definition pageSize_binding : HttpParameter :=
  {| hparam_name := "pageSize"; hparam_in := "query" |}.

Definition parameter_bindings : list (Method * option HttpParameter) :=
  [(getWidget, None);
   (getWidget, Some {| hparam_name := "id"; hparam_in := "path" |});
   (listWidgets, Some pageSize_binding)].

Definition helpers : Imports := Reference.imports paths parameter_bindings.









(** Options with a custom caster for the primitive [date]. *)
Definition custom_date : Options :=
  Some {| sorbet :=
            Some {| magicComments := None;
                    fileIncludes := None;
                    interfacesModule := None;
                    lib := None;
                    type_overrides := Some {["date" := "MyDate.parse"]} |} |}.

End Examples.

(** ** Further vocabulary *)

(** The text holds the character. *)
Fixpoint has_char (c : Ascii.ascii) (s : string) : bool :=
  match s with
  | EmptyString => false
  | String c' s' => Ascii.eqb c c' || has_char c s'
  end.

(** The primitives for which the default table has a conversion. *)
Definition converting (primitive : string) : bool :=
  bool_decide (primitive ∈ ["boolean"; "date"; "date-time"; "double"; "float";
                            "number"; "integer"; "long"]).

Section FurtherVocabulary.
Context `{Imports}.

(** The parameter name resolves, for this method, to a binding with the
    given location. *)
Definition resolves_to (service : Service) (method : Method)
    (location name : string) : bool :=
  match HttpClientFactory.getHttpParameter service (method_name method) name with
  | Some httpParam => String.eqb (hparam_in httpParam) location
  | None => false
  end.

(** The entries the parameter index is filled with, in enumeration order:
    the contexts without an [httpParameter] are skipped. *)
Definition http_parameter_entries (service : Service)
  : list (string * HttpParameter) :=
  omap (λ ctx,
          (λ httpParameter,
             (HttpClientFactory.key (method_name ctx.1) (hparam_name httpParameter),
              httpParameter)) <$> ctx.2)
       (allParameters service).

(** The snake-case names of the security schemes the methods refer to. *)
Definition scheme_names (int : Interface) : list string :=
  methods int ≫= λ m, (λ o, snake (scheme_name o)) <$> concat (security m).

(** The header lines of a method's API keys. *)
Definition api_key_headers (method : Method) : list string :=
  omap (λ scheme,
          match scheme with
          | ApiKeyScheme name parameter location =>
              if String.eqb location "header"
              then Some (HttpClientFactory.req +:+ "['" +:+ parameter +:+ "'] = @"
                         +:+ snake name)
              else None
          | _ => None
          end) (concat (security method)).

(** The entry of the query hash for a parameter name: the last parameter
    declared with that name, if the name resolves to [query]. *)
Definition query_entry_of (service : Service) (method : Method) (name : string)
  : option (string * (Parameter_ * HttpParameter)) :=
  match last (filter (λ p, param_name p = name) (parameters method)),
        HttpClientFactory.getHttpParameter service (method_name method) name with
  | Some p, Some httpParam =>
      if String.eqb (hparam_in httpParam) "query"
      then Some (name, (p, httpParam)) else None
  | _, _ => None
  end.

End FurtherVocabulary.

Module MoreExamples.

(** No parameter has a binding. *)
Definition unbound_helpers : Imports := Reference.imports Examples.paths [].

Definition lib_options : Options :=
  Some {| sorbet :=
            Some {| magicComments := None;
                    fileIncludes := None;
                    interfacesModule := None;
                    lib := Some "./gen/../lib";
                    type_overrides := None |} |}.

End MoreExamples.

(** * Properties *)

(** ** Facts about the built-ins *)

Module JsFacts.

Lemma append_String c s t : String c s +:+ t = String c (s +:+ t).
Proof. reflexivity. Qed.

Lemma append_empty s : EmptyString +:+ s = s.
Proof. reflexivity. Qed.

Lemma join_cons_cons sep x y l :
  Js.join sep (x :: y :: l) = x +:+ sep +:+ Js.join sep (y :: l).
Proof. reflexivity. Qed.

Lemma split_go_nonempty sep s : ∀ k, Js.split_go sep k s ≠ [].
Proof.
  induction s as [|c s IH]; intros k; [by destruct k|].
  destruct k as [|k]; [|apply IH].
  cbn [Js.split_go].
  destruct (String.prefix sep (String c s)); [done|].
  destruct (Js.split_go sep 0 s); done.
Qed.

Lemma prefix_drop p : ∀ s,
  String.prefix p s = true → p +:+ string_drop (String.length p) s = s.
Proof.
  induction p as [|a p IH]; intros s Hp.
  - by destruct s.
  - destruct s as [|b s]; simpl in Hp; [done|].
    destruct (Ascii.ascii_dec a b) as [->|]; [|done].
    simpl. rewrite append_String. f_equal. by apply IH.
Qed.

Lemma join_split_go sep s : sep ≠ EmptyString →
  ∀ k, Js.join sep (Js.split_go sep k s) = string_drop k s.
Proof.
  intros Hsep. induction s as [|c s IH]; intros k.
  - by destruct k.
  - destruct k as [|k]; [|apply IH].
    cbn [Js.split_go string_drop].
    destruct (String.prefix sep (String c s)) eqn:Hp.
    + pose proof (split_go_nonempty sep s (String.length sep - 1)) as Hne.
      specialize (IH (String.length sep - 1)).
      destruct (Js.split_go sep (String.length sep - 1) s) as [|y l]; [done|].
      rewrite join_cons_cons, IH, append_empty.
      apply prefix_drop in Hp.
      destruct sep as [|a sep]; [done|].
      rewrite <- Hp at 1. cbn [String.length string_drop].
      by replace (S (String.length sep) - 1) with (String.length sep) by lia.
    + pose proof (split_go_nonempty sep s 0) as Hne.
      specialize (IH 0).
      destruct (Js.split_go sep 0 s) as [|w ws]; [done|].
      assert (string_drop 0 s = s) as Hd by (by destruct s).
      rewrite Hd in IH. rewrite <- IH.
      destruct ws; reflexivity.
Qed.

Lemma join_split sep s : sep ≠ EmptyString → Js.join sep (Js.split sep s) = s.
Proof.
  intros Hsep. unfold Js.split. rewrite join_split_go by done. by destruct s.
Qed.

(** Sorting by a rank that takes two values gives the stable partition. *)
Section SortTwo.
Context {A : Type} (first : A → bool).

Lemma sort_insert_first x l :
  first x = true →
  Js.sort_insert
    (λ a b, (if first a then 0 else 1) - (if first b then 0 else 1))%Z x l
  = x :: l.
Proof.
  intros Hx. destruct l as [|y l]; [done|]. simpl.
  rewrite bool_decide_eq_true_2; [done|].
  rewrite Hx. destruct (first y); lia.
Qed.

Lemma sort_insert_second x l1 l2 :
  first x = false →
  Forall (λ y, first y = true) l1 → Forall (λ y, first y = false) l2 →
  Js.sort_insert
    (λ a b, (if first a then 0 else 1) - (if first b then 0 else 1))%Z x (l1 ++ l2)
  = l1 ++ x :: l2.
Proof.
  intros Hx H1 H2. induction H1 as [|y l1 Hy _ IH]; simpl.
  - destruct H2 as [|y l2 Hy _]; [done|]. simpl.
    rewrite bool_decide_eq_true_2; [done|].
    rewrite Hx, Hy. lia.
  - rewrite bool_decide_eq_false_2, IH; [done|].
    rewrite Hx, Hy. lia.
Qed.

Lemma sort_two_ranks l :
  Js.sort (λ a b, (if first a then 0 else 1) - (if first b then 0 else 1))%Z l
  = filter (λ x, first x = true) l ++ filter (λ x, first x = false) l.
Proof.
  induction l as [|x l IH]; [done|].
  unfold Js.sort in *. simpl. rewrite IH.
  rewrite !filter_cons. destruct (first x) eqn:Hx.
  - rewrite decide_True by done. rewrite decide_False by done.
    by apply sort_insert_first.
  - rewrite decide_False by done. rewrite decide_True by done.
    apply sort_insert_second; [done| |]; apply Forall_forall; intros y Hy;
      by apply list_elem_of_filter in Hy as [? _].
Qed.
End SortTwo.

Lemma Map_get_set {V} k k' (v : V) m :
  Js.Map_get k (Js.Map_set k' v m) = if decide (k = k') then Some v else Js.Map_get k m.
Proof.
  induction m as [|[k0 v0] m IH]; simpl.
  - destruct (decide (k = k')) as [->|Hne].
    + by rewrite String.eqb_refl.
    + by apply String.eqb_neq in Hne as ->.
  - destruct (String.eqb k' k0) eqn:E0; simpl.
    + apply String.eqb_eq in E0 as ->.
      destruct (decide (k = k0)) as [->|Hne].
      * by rewrite String.eqb_refl.
      * by apply String.eqb_neq in Hne as ->.
    + destruct (String.eqb k k0) eqn:E1.
      * apply String.eqb_eq in E1 as ->.
        apply String.eqb_neq in E0. by rewrite decide_False.
      * done.
Qed.

Lemma Map_get_foldl_set {A V} (key : A → string) (val : A → V) k l : ∀ m,
  Js.Map_get k (foldl (λ m a, Js.Map_set (key a) (val a) m) m l)
  = match last (filter (λ a, key a = k) l) with
    | Some a => Some (val a)
    | None => Js.Map_get k m
    end.
Proof.
  induction l as [|a l IH] using rev_ind; intros m; [done|].
  rewrite foldl_snoc, filter_app, Map_get_set, filter_cons, filter_nil.
  destruct (decide (k = key a)) as [->|Hne].
  - rewrite decide_True by done. by rewrite last_snoc.
  - rewrite decide_False by done. rewrite app_nil_r. apply IH.
Qed.

Lemma lookup_foldl_insert {A V} (key : A → string) (val : A → V) k l :
  ∀ m : gmap string V,
  foldl (λ m a, <[key a := val a]> m) m l !! k
  = match last (filter (λ a, key a = k) l) with
    | Some a => Some (val a)
    | None => m !! k
    end.
Proof.
  induction l as [|a l IH] using rev_ind; intros m; [done|].
  rewrite foldl_snoc, filter_app, filter_cons, filter_nil.
  destruct (decide (key a = k)) as [<-|Hne].
  - by rewrite lookup_insert_eq, last_snoc.
  - rewrite lookup_insert_ne by done. rewrite app_nil_r. apply IH.
Qed.

End JsFacts.

(** ** Facts about strings *)

Module StringFacts.

Lemma substring_0_length s : String.substring 0 (String.length s) s = s.
Proof. induction s as [|c s IH]; simpl; [done|]. by rewrite IH. Qed.

Lemma substring_0_app a b :
  String.substring 0 (String.length a) (a +:+ b) = a.
Proof.
  induction a as [|c a IH]; simpl.
  - by destruct b.
  - by rewrite IH.
Qed.

Lemma substring_length_app a b :
  String.substring (String.length a) (String.length b) (a +:+ b) = b.
Proof.
  induction a as [|c a IH]; simpl.
  - apply substring_0_length.
  - done.
Qed.

Lemma substring_split s : ∀ i, i ≤ String.length s →
  String.substring 0 i s +:+ String.substring i (String.length s - i) s = s.
Proof.
  induction s as [|c s IH]; intros i Hi.
  - by destruct i.
  - destruct i as [|i]; simpl.
    + by rewrite substring_0_length.
    + rewrite ?JsFacts.append_String. f_equal. apply IH. simpl in Hi. lia.
Qed.

Lemma length_app a b :
  String.length (a +:+ b) = String.length a + String.length b.
Proof.
  induction a as [|c a IH]; [done|].
  rewrite JsFacts.append_String. simpl. by rewrite IH.
Qed.

Lemma endsWith_app a b : Js.endsWith (a +:+ b) b = true.
Proof.
  unfold Js.endsWith. rewrite length_app.
  rewrite bool_decide_eq_true_2 by lia.
  replace (String.length a + String.length b - String.length b)
    with (String.length a) by lia.
  rewrite substring_length_app. simpl. apply String.eqb_refl.
Qed.

Lemma endsWith_inv s suf :
  Js.endsWith s suf = true →
  s = String.substring 0 (String.length s - String.length suf) s +:+ suf.
Proof.
  unfold Js.endsWith. intros Hs.
  apply andb_true_iff in Hs as [Hle Heq].
  apply bool_decide_eq_true in Hle. apply String.eqb_eq in Heq.
  remember (String.length suf) as k eqn:Hk. rewrite <- Heq.
  rewrite <- (substring_split s (String.length s - k)) at 1 by lia.
  do 2 f_equal. lia.
Qed.

End StringFacts.

(** ** Facts about the client factory *)

Module ClientFacts.
Import HttpClientFactory.

Lemma substring_from_1 c s : Js.substring_from (String c s) 1 = s.
Proof.
  unfold Js.substring_from, Js.substring.
  set (n := String.length (String c s)).
  assert (n = S (String.length s)) as Hn by done.
  replace ((1 `min` n) `min` (n `min` n)) with 1 by lia.
  replace ((1 `min` n) `max` (n `min` n) - 1) with (String.length s) by lia.
  simpl. apply StringFacts.substring_0_length.
Qed.

Lemma substring_inner c a b :
  Js.substring (String c (a +:+ String b EmptyString)) 1
    (String.length (String c (a +:+ String b EmptyString)) - 1) = a.
Proof.
  unfold Js.substring.
  set (n := String.length (String c (a +:+ String b EmptyString))).
  assert (n = S (String.length a + 1)) as Hn.
  { unfold n. simpl. by rewrite StringFacts.length_app. }
  replace ((1 `min` n) `min` ((n - 1) `min` n)) with 1 by lia.
  replace ((1 `min` n) `max` ((n - 1) `min` n) - 1) with (String.length a) by lia.
  simpl. apply StringFacts.substring_0_app.
Qed.

Lemma prefix_char a s :
  String.prefix (String a EmptyString) s = true ↔ ∃ s', s = String a s'.
Proof.
  destruct s as [|b s]; cbn [String.prefix].
  - split; [done|]. by intros [? ?].
  - destruct (Ascii.ascii_dec a b) as [<-|Hne].
    + split; [by eexists|]. intros _. by destruct s.
    + split; [done|]. intros [s' [= ? ?]]. done.
Qed.

Lemma getParamName_placeholder seg name :
  getParamName seg = Some name ↔ is_placeholder seg name.
Proof.
  unfold getParamName, Js.startsWith, is_placeholder. split.
  - destruct (String.prefix ":" seg) eqn:Hc.
    + apply prefix_char in Hc as [s' ->].
      rewrite substring_from_1. intros [= ->]. by left.
    + destruct (String.prefix "{" seg) eqn:Hb; [|done].
      apply prefix_char in Hb as [s' ->].
      destruct (Js.endsWith _ _) eqn:He; [|done].
      apply StringFacts.endsWith_inv in He.
      remember (String.substring 0 _ _) as init eqn:Hinit in He. clear Hinit.
      destruct init as [|a init]; [done|].
      rewrite JsFacts.append_String in He. injection He as <- ->.
      rewrite substring_inner. intros [= <-]. by right.
  - intros [->| ->].
    + change (":" +:+ name) with (String ":"%char name).
      replace (String.prefix ":" (String ":"%char name)) with true
        by (symmetry; apply prefix_char; by eexists).
      by rewrite substring_from_1.
    + change ("{" +:+ name +:+ "}") with (String "{"%char (name +:+ "}")).
      destruct (String.prefix ":" _) eqn:Hc.
      { apply prefix_char in Hc as [s' [=]]. }
      replace (String.prefix "{" (String "{"%char (name +:+ "}"))) with true
        by (symmetry; apply prefix_char; by eexists).
      change (String "{"%char (name +:+ "}")) with (("{" +:+ name) +:+ "}") at 1.
      rewrite StringFacts.endsWith_app. simpl.
      by rewrite substring_inner.
Qed.

Section WithImports.
Context `{Imports}.

Lemma sortParameters_required_first ps : sortParameters ps = required_first ps.
Proof.
  unfold sortParameters, required_first, required_rank.
  apply (JsFacts.sort_two_ranks (λ p, isRequired (param_type p))).
Qed.

Lemma paramsByName_get service method name :
  Js.Map_get name (paramsByName service method)
  = (λ p, (p, getHttpParameter service (method_name method) (param_name p)))
      <$> last (filter (λ p, param_name p = name) (parameters method)).
Proof.
  unfold paramsByName, Js.new_Map. rewrite foldl_fmap. simpl.
  rewrite (JsFacts.Map_get_foldl_set param_name
             (λ p, (p, getHttpParameter service (method_name method) (param_name p)))).
  by destruct (last _).
Qed.

Lemma placeholder_unique seg name name' :
  is_placeholder seg name → is_placeholder seg name' → name = name'.
Proof.
  intros H1 H2. apply getParamName_placeholder in H1, H2. congruence.
Qed.

Lemma substitute_segment_result service method seg :
  segment_result service method seg (substitute_segment service method seg).
Proof.
  unfold substitute_segment.
  destruct (getParamName seg) as [name|] eqn:Hname.
  - apply getParamName_placeholder in Hname.
    assert (∀ p, path_bound service method seg p →
                 name ≠ EmptyString
                 ∧ ∃ httpParam,
                     Js.Map_get name (paramsByName service method) = Some (p, Some httpParam)
                     ∧ hparam_in httpParam = "path") as Hinv.
    { intros p (name' & httpParam & Hne & Hpl & Hp & Hhp & Hin).
      rewrite (placeholder_unique _ _ _ Hname Hpl). split; [done|].
      exists httpParam. split; [|done].
      rewrite paramsByName_get. unfold names_parameter in Hp. rewrite Hp. simpl.
      by rewrite Hhp. }
    destruct name as [|c name]; simpl.
    { apply segment_literal. intros p Hp. by apply Hinv in Hp as [? _]. }
    destruct (Js.Map_get _ _) as [[param [httpParam|]]|] eqn:Hget.
    + destruct (String.eqb (hparam_in httpParam) "path") eqn:Hin; simpl.
      * apply String.eqb_eq in Hin. apply segment_substituted.
        exists (String c name), httpParam.
        rewrite paramsByName_get in Hget.
        destruct (last _) as [p|] eqn:Hlast; [|done].
        simpl in Hget. injection Hget as <- Hhp. done.
      * apply String.eqb_neq in Hin. apply segment_literal.
        intros p Hp. apply Hinv in Hp as [_ (hp & Hget' & Hin')]. congruence.
    + apply segment_literal.
      intros p Hp. apply Hinv in Hp as [_ (hp & Hget' & Hin')]. congruence.
    + apply segment_literal.
      intros p Hp. apply Hinv in Hp as [_ (hp & Hget' & Hin')]. congruence.
  - apply segment_literal.
    intros p (name' & httpParam & Hne & Hpl & _).
    apply getParamName_placeholder in Hpl. congruence.
Qed.

Lemma http_map_bindings service :
  http_map service
  = foldl (λ map b, <[snake (hmethod_name b.1) := b]> map) ∅ (bindings service).
Proof.
  unfold http_map, bindings.
  generalize (∅ : gmap string (HttpMethod * HttpPath)).
  induction (allHttpPaths service) as [|ctx l IH]; intros m; [done|].
  cbn [foldl mbind list_bind]. rewrite foldl_app, <- IH.
  f_equal. destruct ctx as [httpPath|]; [|done].
  by rewrite foldl_fmap.
Qed.

Lemma getHttp_last_binding service name :
  getHttp service name = last_binding service (snake name).
Proof.
  unfold getHttp, getHttp_cached, last_binding. cbn [fst].
  rewrite http_map_bindings.
  rewrite (JsFacts.lookup_foldl_insert (λ b, snake (hmethod_name b.1)) id).
  rewrite lookup_empty. by destruct (last _).
Qed.

(** Once the first call has stored the map, every later call returns what
    [getHttp] returns and leaves the stored map as it is. *)
Lemma getHttp_cached_transparent entry service name :
  entry = None ∨ entry = Some (http_map service) →
  getHttp_cached entry service name
  = (getHttp service name, Some (http_map service)).
Proof. by intros [-> | ->]. Qed.

Lemma getHttpParameter_cached_transparent entry service m p :
  entry = None ∨ entry = Some (http_parameter_map service) →
  getHttpParameter_cached entry service m p
  = (getHttpParameter service m p, Some (http_parameter_map service)).
Proof. by intros [-> | ->]. Qed.

Lemma Map_set_Forall {V} (P : string * V → Prop) k v m :
  P (k, v) → Forall P m → Forall P (Js.Map_set k v m).
Proof.
  intros Hkv Hm. induction Hm as [|[k' v'] m Hx Hm IH]; simpl.
  - by constructor.
  - destruct (String.eqb k k'); by constructor.
Qed.

(** Every entry of [paramsByName] pairs a parameter, under its own name,
    with what [getHttpParameter] resolves that name to. *)
Lemma paramsByName_entries service method :
  Forall (λ e, param_name e.2.1 = e.1
               ∧ e.2.2 = getHttpParameter service (method_name method) e.1)
         (paramsByName service method).
Proof.
  unfold paramsByName, Js.new_Map. rewrite foldl_fmap.
  generalize (parameters method).
  assert (Forall (λ e : string * (Parameter_ * option HttpParameter),
                    param_name e.2.1 = e.1
                    ∧ e.2.2 = getHttpParameter service (method_name method) e.1) [])
    as Hnil by constructor.
  revert Hnil. generalize (@nil (string * (Parameter_ * option HttpParameter))).
  intros m Hm ps. revert m Hm.
  induction ps as [|p ps IH]; intros m Hm; [done|].
  simpl. apply IH. by apply Map_set_Forall.
Qed.

(** The keys of the query hash are the parameters' own names; the wire
    name of the resolved binding is not read. *)
Lemma query_map_entries service method :
  Forall (λ e, param_name e.2.1 = e.1
               ∧ getHttpParameter service (method_name method) e.1 = Some e.2.2
               ∧ hparam_in e.2.2 = "query")
         (query_map service method).
Proof.
  unfold query_map.
  pose proof (paramsByName_entries service method) as Hall.
  revert Hall. generalize (paramsByName service method).
  assert (Forall (λ e : string * (Parameter_ * HttpParameter),
                    param_name e.2.1 = e.1
                    ∧ getHttpParameter service (method_name method) e.1 = Some e.2.2
                    ∧ hparam_in e.2.2 = "query") []) as Hnil by constructor.
  revert Hnil. generalize (@nil (string * (Parameter_ * HttpParameter))).
  intros m Hm l Hl. revert m Hm.
  induction Hl as [|[k [p hp]] l [Hk Hhp] _ IH]; intros m Hm; [done|].
  simpl in *. apply IH.
  destruct hp as [queryParam|]; [|done].
  destruct (String.eqb (hparam_in queryParam) "query") eqn:Hin; [|done].
  apply String.eqb_eq in Hin. by apply Map_set_Forall.
Qed.

(** A method without an operation binding has no definition, but its
    comment and signature are written all the same. *)
Lemma unbound_method_lines service options method :
  getHttp service (method_name method) = None →
  buildDefinition service method = []
  ∧ method_lines service options method
    = [EmptyString] ++ comment (method_description method)
      ++ buildSignature service options method.
Proof.
  intros Hnone. unfold method_lines, buildDefinition. rewrite Hnone.
  by rewrite app_nil_r.
Qed.

End WithImports.

End ClientFacts.

(** ** Facts about the mapper factory *)

Module MapperFacts.
Import MapperFactory.

Lemma append_assoc a b c : (a +:+ b) +:+ c = a +:+ (b +:+ c).
Proof.
  induction a as [|x a IH]; [done|].
  rewrite !JsFacts.append_String. by rewrite IH.
Qed.

Section WithImports.
Context `{Imports}.

Lemma separated_app bs1 bs2 :
  bs1 ≠ [] → bs2 ≠ [] →
  separated (bs1 ++ bs2) = separated bs1 ++ [EmptyString] ++ separated bs2.
Proof.
  intros H1 H2. induction bs1 as [|b bs1 IH]; [done|].
  destruct bs1 as [|b' bs1].
  - destruct bs2; done.
  - change (separated ((b :: b' :: bs1) ++ bs2))
      with (b ++ [EmptyString] ++ separated ((b' :: bs1) ++ bs2)).
    rewrite IH by done.
    change (separated (b :: b' :: bs1))
      with (b ++ [EmptyString] ++ separated (b' :: bs1)).
    by rewrite <- !app_assoc.
Qed.

(** A loop that writes two functions per item writes all of them with one
    blank line between two neighbours. *)
Lemma for_each_pairs {A} (f g : A → list string) xs : ∀ hasWritten,
  for_each (λ x, f x ++ [EmptyString] ++ g x) hasWritten xs
  = ((match xs with
      | [] => []
      | _ => if hasWritten then [EmptyString] else []
      end) ++ separated (xs ≫= λ x, [f x; g x]),
     match xs with [] => hasWritten | _ => true end).
Proof.
  induction xs as [|x xs IH]; intros hasWritten; [done|].
  cbn [for_each]. rewrite IH. cbn [fst snd].
  f_equal; [|by destruct xs]. f_equal.
  destruct xs as [|x' xs]; [by rewrite app_nil_r|].
  change ((x :: x' :: xs) ≫= λ x, [f x; g x])
    with ([f x; g x] ++ ((x' :: xs) ≫= λ x, [f x; g x])).
  rewrite separated_app by done. simpl. by rewrite <- !app_assoc.
Qed.

Lemma module_body_separated service options :
  module_body service options = separated (mapping_functions service options).
Proof.
  unfold module_body, mapping_functions, castPrimitive, castPrimitiveArray.
  rewrite !for_each_pairs. cbn [fst snd for_each]. rewrite !app_nil_r.
  destruct (types service) as [|t ts] eqn:Ht.
  - simpl. by destruct (enums service).
  - destruct (enums service) as [|e es] eqn:He.
    + by rewrite !app_nil_r.
    + rewrite separated_app; done.
Qed.

End WithImports.
End MapperFacts.

(** ** The claims *)

Section Claims.
Context `{Imports}.
Import HttpClientFactory MapperFactory.

(** C4, as amended. A custom caster configured for the type name of a
    primitive property replaces the default cast in the DTO-to-struct
    function only, where it is applied to the field's [to_s]; the entry the
    struct-to-DTO function writes for that property follows the fixed rule
    of that direction ([date], [date-time], otherwise the value itself)
    whatever the options are. *)
Theorem custom_caster_in_dto_to_struct_only (options : Options) (type : Type_)
    (prop : Property) (caster : string) (count i : nat) :
  isPrimitive (prop_type prop) = true →
  override_for options (typeName (prop_type prop)) = Some caster →
  struct_argument options count i prop
  = buildPropertyName prop +:+ ": "
    +:+ (if isArray (prop_type prop)
         then "dto['" +:+ prop_name prop +:+ "']&.map { |item| "
              +:+ caster +:+ "(item.to_s) }"
         else caster +:+ "(dto['" +:+ prop_name prop +:+ "'].to_s)")
    +:+ (if bool_decide (i < count - 1) then "," else EmptyString)
  ∧ dto_entry type prop
    = "'" +:+ prop_name prop +:+ "': "
      +:+ (if isArray (prop_type prop)
           then snake (type_name type) +:+ "." +:+ buildPropertyName prop
                +:+ "&.map { |item| "
                +:+ dto_rule (typeName (prop_type prop)) "item" +:+ " }"
           else dto_rule (typeName (prop_type prop))
                  (snake (type_name type) +:+ "." +:+ buildPropertyName prop))
      +:+ ",".
Proof.
  intros Hprim Hover. split.
  - unfold struct_argument, buildPropCast. rewrite Hprim, Hover.
    destruct (isArray (prop_type prop)); by rewrite !MapperFacts.append_assoc.
  - unfold dto_entry, buildDtoPropCast, dto_rule. rewrite Hprim.
    assert (∀ a b : string, String.eqb a b = bool_decide (a = b)) as Heqb.
    { intros a b. destruct (String.eqb a b) eqn:E.
      - apply String.eqb_eq in E. by rewrite bool_decide_eq_true_2.
      - apply String.eqb_neq in E. by rewrite bool_decide_eq_false_2. }
    rewrite !Heqb.
    destruct (isArray (prop_type prop));
      repeat case_decide; simpl;
      rewrite ?bool_decide_eq_true_2, ?bool_decide_eq_false_2 by done;
      rewrite ?MapperFacts.append_assoc; try done.
Qed.

(** C7, as amended. Without a custom caster the cast of a primitive
    property in the DTO-to-struct function is defensive: the field itself,
    or the default conversion applied only when the field is a string.
    With a custom caster the cast is the caster applied to the field's
    [to_s], without a test of the field's type. *)
Theorem primitive_cast_defensive_without_caster (options : Options)
    (typeName baseCase : string) :
  match override_for options typeName with
  | Some caster =>
      buildPropCast options typeName true baseCase
      = caster +:+ "(" +:+ baseCase +:+ ".to_s)"
  | None =>
      buildPropCast options typeName true baseCase = baseCase
      ∨ buildPropCast options typeName true baseCase
        = guarded baseCase (default_cast typeName baseCase)
  end.
Proof.
  unfold buildPropCast, buildPrimitiveCast, guarded.
  destruct (override_for options typeName); [done|].
  destruct (String.eqb _ _); [by left | by right].
Qed.

(** C5. For a method with an operation binding, the signature lists the
    required parameters in declaration order and then the optional ones in
    declaration order, the type of an optional one wrapped in [T.nilable];
    the parameter list of the definition has the same order. *)
Theorem signature_orders_required_first (service : Service) (options : Options)
    (method : Method) (httpMethod : HttpMethod) (httpPath : HttpPath) :
  getHttp service (method_name method) = Some (httpMethod, httpPath) →
  sortParameters (parameters method) = required_first (parameters method)
  ∧ buildSignatureParameters service options method
    = indent (imap (λ i p,
        buildParameterName p +:+ ": "
        +:+ (if isRequired (param_type p)
             then buildTypeName (param_type p) service options false
             else "T.nilable(" +:+ buildTypeName (param_type p) service options false
                  +:+ ")")
        +:+ (if bool_decide (i = length (parameters method) - 1)
             then EmptyString else ","))
        (required_first (parameters method)))
  ∧ (parameters method ≠ [] →
     ∃ rest, buildSignature service options method
             = block "sig do"
                 (["override.params("]
                  ++ buildSignatureParameters service options method ++ rest))
  ∧ buildDefinition service method
    = block ("def " +:+ buildMethodName method
             +:+ match parameters method with
                 | [] => EmptyString
                 | _ =>
                     "(" +:+ Js.join ", "
                       ((λ p, buildParameterName p +:+ ":"
                              +:+ (if isRequired (param_type p) then EmptyString
                                   else " nil"))
                          <$> required_first (parameters method))
                     +:+ ")"
                 end)
        (definition_body service httpMethod httpPath method).
Proof.
  intros Hhttp.
  split; [apply ClientFacts.sortParameters_required_first|].
  split; [|split].
  - unfold buildSignatureParameters.
    by rewrite ClientFacts.sortParameters_required_first.
  - intros Hne. unfold buildSignature.
    destruct (parameters method) as [|p ps] eqn:Hps; [done|].
    destruct (returnType method); eexists; reflexivity.
  - unfold buildDefinition, definition_parameters. rewrite Hhttp.
    by rewrite ClientFacts.sortParameters_required_first.
Qed.

(** C6. For a method with an operation binding, the URI in the definition
    is the base root, [/v] and the major version, then the path template
    where each segment stays as it is unless it is a placeholder [:name] or
    [{name}] of a parameter that resolves to the location [path], which
    becomes the interpolation of that parameter; a template without such
    a placeholder is kept word for word. *)
Theorem uri_substitutes_path_parameters (service : Service) (method : Method)
    (httpMethod : HttpMethod) (httpPath : HttpPath) :
  getHttp service (method_name method) = Some (httpMethod, httpPath) →
  ∃ segs rest,
    buildDefinition service method
    = block ("def " +:+ buildMethodName method +:+ definition_parameters method)
        ((uri +:+ " = URI(" +:+ Js.DQ +:+ buildUri service httpPath method
          +:+ Js.DQ +:+ ")") :: rest)
    ∧ buildUri service httpPath method
      = "#{@" +:+ apiRoot +:+ "}/v" +:+ Js.string_of_N (majorVersion service)
        +:+ Js.join "/" segs
    ∧ Forall2 (segment_result service method) (Js.split "/" (path httpPath)) segs
    ∧ (Forall (λ seg, ∀ p, ¬ path_bound service method seg p)
         (Js.split "/" (path httpPath)) →
       Js.join "/" segs = path httpPath).
Proof.
  intros Hhttp.
  exists (substitute_segment service method <$> Js.split "/" (path httpPath)).
  eexists. split; [|split; [|split]].
  - unfold buildDefinition. rewrite Hhttp. reflexivity.
  - reflexivity.
  - apply Forall2_fmap_r.
    induction (Js.split "/" (path httpPath)) as [|seg segs IH]; constructor.
    + apply ClientFacts.substitute_segment_result.
    + exact IH.
  - intros Hlit.
    rewrite <- (JsFacts.join_split "/" (path httpPath)) at 2 by done.
    f_equal. rewrite <- (list_fmap_id (Js.split "/" (path httpPath))) at 2.
    apply Forall_fmap_ext_1. eapply Forall_impl; [exact Hlit|].
    intros seg Hseg. simpl.
    destruct (ClientFacts.substitute_segment_result service method seg)
      as [p Hp|_]; [|done].
    by apply Hseg in Hp.
Qed.

(** C9. The generator returns one client file per interface, in the order
    of the interfaces, followed by the one mapper file: as many files as
    there are interfaces, plus one, whatever the HTTP bindings are. *)
Theorem generator_one_file_per_interface_and_mapper (service : Service)
    (options : Options) :
  generator service options
  = (HttpClientFactory.buildClientFile service options <$> interfaces service)
    ++ [MapperFactory.buildMapperFile service options]
  ∧ length (generator service options) = length (interfaces service) + 1.
Proof.
  split; [reflexivity|].
  unfold generator, generateClients, generateMapper,
    HttpClientFactory.build, MapperFactory.build.
  by rewrite length_app, length_fmap.
Qed.

(** C10. [getHttp] looks a method up under its snake-case name and yields
    the last enumerated binding whose snake-case name is the same (none if
    there is none): a later binding for the same normalised name replaces
    the earlier ones, and two method names with the same snake-case form
    get the same answer. *)
Theorem getHttp_last_binding_wins (service : Service) :
  (∀ methodName,
     getHttp service methodName = last_binding service (snake methodName))
  ∧ (∀ before httpMethod httpPath after methodName,
       bindings service = before ++ (httpMethod, httpPath) :: after →
       snake (hmethod_name httpMethod) = snake methodName →
       Forall (λ b, snake (hmethod_name b.1) ≠ snake methodName) after →
       getHttp service methodName = Some (httpMethod, httpPath))
  ∧ (∀ name1 name2,
       snake name1 = snake name2 →
       getHttp service name1 = getHttp service name2).
Proof.
  split; [apply ClientFacts.getHttp_last_binding|]. split.
  - intros before httpMethod httpPath after methodName Hb Hname Hafter.
    rewrite ClientFacts.getHttp_last_binding. unfold last_binding.
    rewrite Hb, filter_app, filter_cons, decide_True by done.
    assert (filter (λ b, snake (hmethod_name b.1) = snake methodName) after = [])
      as ->; [|by rewrite last_snoc].
    clear Hb. induction Hafter as [|b after Hb' _ IH]; [done|].
    rewrite filter_cons, decide_False by done. exact IH.
  - intros name1 name2 Hsnake.
    by rewrite !ClientFacts.getHttp_last_binding, Hsnake.
Qed.

End Claims.

(** ** The claims on the example service *)

Section OnExamples.
Import Examples HttpClientFactory MapperFactory.


(** C2. The method [ping] has no operation binding.  No definition is
    written for it and nothing fails, but its signature is written: the
    body of the client class ends with a signature that no definition
    follows. *)
Theorem unbound_method_signature_is_written :
  getHttp (H := helpers) shop "ping" = None
  ∧ buildDefinition (H := helpers) shop ping = []
  ∧ method_lines (H := helpers) shop None ping
    = [EmptyString; "sig { override.void }"]
  ∧ ∃ before,
      class_body (H := helpers) shop None widgets
      = before ++ method_lines (H := helpers) shop None ping.
Proof.
  split; [vm_compute; reflexivity|].
  split; [vm_compute; reflexivity|].
  split; [vm_compute; reflexivity|].
  exists (take 40 (class_body (H := helpers) shop None widgets)).
  vm_compute. reflexivity.
Qed.

(** C4, counterexample. With the caster [MyDate.parse] configured for
    [date], the struct-to-DTO function of [widget], which has a [date]
    property, does not mention the caster in any line: the property is
    written with the default rule. *)
Lemma custom_caster_not_in_struct_to_dto :
  override_for custom_date "date" = Some "MyDate.parse"
  ∧ dto_entry (H := helpers) widget born_prop = "'born': widget.born&.to_s,"
  ∧ ¬ Exists (λ line, includes line "MyDate.parse" = true)
        (struct_to_dto (H := helpers) widget).
Proof.
  split; [vm_compute; reflexivity|].
  split; [vm_compute; reflexivity|].
  apply (proj1 (bool_decide_eq_false _)). vm_compute. reflexivity.
Qed.

(** C4, an instance of the amended claim: the [date] property of
    [widget]. *)
Lemma custom_caster_in_dto_to_struct_only_witness :
  isPrimitive (prop_type born_prop) = true
  ∧ override_for custom_date (typeName (prop_type born_prop)) = Some "MyDate.parse"
  ∧ struct_argument (H := helpers) custom_date 2 1 born_prop
    = "born: MyDate.parse(dto['born'].to_s)"
  ∧ dto_entry (H := helpers) widget born_prop = "'born': widget.born&.to_s,".
Proof.
  split; [reflexivity|].
  split; [vm_compute; reflexivity|].
  apply (custom_caster_in_dto_to_struct_only (H := helpers)
           custom_date widget born_prop "MyDate.parse" 2 1).
  - reflexivity.
  - vm_compute. reflexivity.
Defined.

(** C7, counterexample. With the caster [MyDate.parse] configured for
    [date], the cast of a [date] field is neither the field itself nor a
    conversion guarded by a test for a string: a value that is already a
    date is converted as well. *)
Lemma custom_caster_cast_not_defensive :
  ¬ defensive "dto['born']"
      (buildPropCast (H := helpers) custom_date "date" true "dto['born']").
Proof.
  assert (buildPropCast (H := helpers) custom_date "date" true "dto['born']"
          = "MyDate.parse(dto['born'].to_s)") as -> by (vm_compute; reflexivity).
  intros [Heq|[casted Heq]]; [discriminate Heq|].
  unfold guarded in Heq. discriminate Heq.
Qed.

(** C5, an instance: [getWidget] declares the optional [expand] before the
    required [id]. *)
Lemma signature_orders_required_first_witness :
  getHttp (H := helpers) shop (method_name getWidget)
  = Some (get_widget_binding, widget_path)
  ∧ sortParameters (H := helpers) (parameters getWidget) = [id_param; expand_param]
  ∧ buildSignatureParameters (H := helpers) shop None getWidget
    = ["  id: String,"; "  expand: T.nilable(String)"].
Proof.
  assert (getHttp (H := helpers) shop (method_name getWidget)
          = Some (get_widget_binding, widget_path)) as Hhttp
    by (vm_compute; reflexivity).
  split; [exact Hhttp|].
  destruct (signature_orders_required_first (H := helpers) shop None getWidget
              get_widget_binding widget_path Hhttp) as (Hsort & Hsig & _).
  split.
  - rewrite Hsort. vm_compute. reflexivity.
  - rewrite Hsig. vm_compute. reflexivity.
Defined.

(** C6, an instance: [getWidget] is bound to [/widgets/:id], and [id]
    resolves to the location [path]. *)
Lemma uri_substitutes_path_parameters_witness :
  getHttp (H := helpers) shop (method_name getWidget)
  = Some (get_widget_binding, widget_path)
  ∧ ∃ segs,
      buildUri (H := helpers) shop widget_path getWidget
      = "#{@api_root}/v1" +:+ Js.join "/" segs
      ∧ Forall2 (segment_result (H := helpers) shop getWidget)
          [EmptyString; "widgets"; ":id"] segs.
Proof.
  assert (getHttp (H := helpers) shop (method_name getWidget)
          = Some (get_widget_binding, widget_path)) as Hhttp
    by (vm_compute; reflexivity).
  split; [exact Hhttp|].
  destruct (uri_substitutes_path_parameters (H := helpers) shop getWidget
              get_widget_binding widget_path Hhttp)
    as (segs & rest & _ & Huri & Hsegs & _).
  exists segs. split; [exact Huri | exact Hsegs].
Defined.

(** In [/widgets/:id] the segment [:id] is a placeholder of the parameter
    [id], which resolves to the location [path]. *)
Example id_segment_is_path_bound :
  path_bound (H := helpers) shop getWidget ":id" id_param.
Proof.
  exists "id", {| hparam_name := "id"; hparam_in := "path" |}.
  split; [done|]. split; [by left|].
  split; [reflexivity|]. split; [vm_compute; reflexivity|reflexivity].
Qed.

(** The request of the example targets [{root}/v1/widgets/{id}]. *)
Example getWidget_uri :
  buildUri (H := helpers) shop widget_path getWidget
  = "#{@api_root}/v1/widgets/#{id}".
Proof. vm_compute. reflexivity. Qed.

(** A placeholder that names no parameter stays in the URI as it is. *)
Example unresolved_placeholder_stays :
  buildUri (H := helpers) shop part_path getWidget
  = "#{@api_root}/v1/widgets/#{id}/parts/{part}".
Proof. vm_compute. reflexivity. Qed.

(** C10, an instance: [getWidget] and [get_widget] have the same
    snake-case form. *)
Lemma getHttp_last_binding_wins_witness :
  Reference.snake "getWidget" = Reference.snake "get_widget"
  ∧ getHttp (H := helpers) shop "getWidget" = getHttp (H := helpers) shop "get_widget".
Proof.
  assert (Reference.snake "getWidget" = Reference.snake "get_widget") as Hsnake
    by (vm_compute; reflexivity).
  split; [exact Hsnake|].
  exact (proj2 (proj2 (getHttp_last_binding_wins (H := helpers) shop))
           "getWidget" "get_widget" Hsnake).
Defined.

End OnExamples.

(** ** Further facts about the built-ins *)

Module MoreJsFacts.

Lemma eqb_decide (a b : string) : String.eqb a b = bool_decide (a = b).
Proof.
  destruct (String.eqb a b) eqn:E.
  - apply String.eqb_eq in E. by rewrite bool_decide_eq_true_2.
  - apply String.eqb_neq in E. by rewrite bool_decide_eq_false_2.
Qed.

Lemma sort_insert_Permutation {A} (cmp : A → A → Z) x l :
  Js.sort_insert cmp x l ≡ₚ x :: l.
Proof.
  induction l as [|y l IH]; simpl; [done|].
  case_bool_decide; [done|]. rewrite IH. apply Permutation_swap.
Qed.

Lemma sort_Permutation {A} (cmp : A → A → Z) l : Js.sort cmp l ≡ₚ l.
Proof.
  induction l as [|x l IH]; [done|].
  unfold Js.sort in *. simpl. by rewrite sort_insert_Permutation, IH.
Qed.

Lemma distinct_elem_of xs : ∀ seen x,
  x ∈ Js.distinct seen xs ↔ x ∈ xs ∧ x ∉ seen.
Proof.
  induction xs as [|y xs IH]; intros seen x; simpl.
  - split; [by intros ?%elem_of_nil|]. by intros [?%elem_of_nil _].
  - case_bool_decide as Hy.
    + rewrite IH, elem_of_cons. split.
      * intros [Hx Hn]. split; [by right|done].
      * intros [[->|Hx] Hn]; done.
    + rewrite elem_of_cons, IH, !elem_of_cons. split.
      * intros [->|[Hx Hn]]; [split; [by left|done]|].
        split; [by right|]. intros Hs. apply Hn. by right.
      * intros [[->|Hx] Hn]; [by left|].
        destruct (decide (x = y)) as [->|Hne]; [by left|]. right.
        split; [done|]. intros [?|?]; done.
Qed.

Lemma distinct_NoDup xs : ∀ seen, NoDup (Js.distinct seen xs).
Proof.
  induction xs as [|y xs IH]; intros seen; simpl; [constructor|].
  case_bool_decide; [apply IH|].
  constructor; [|apply IH].
  rewrite distinct_elem_of. intros [_ Hn]. apply Hn. by left.
Qed.

Lemma distinct_ext xs : ∀ seen seen',
  (∀ x, x ∈ seen ↔ x ∈ seen') → Js.distinct seen xs = Js.distinct seen' xs.
Proof.
  induction xs as [|y xs IH]; intros seen seen' Hs; simpl; [done|].
  rewrite (bool_decide_ext (y ∈ seen) (y ∈ seen')) by apply Hs.
  case_bool_decide; [by apply IH|].
  f_equal. apply IH. intros x. rewrite !elem_of_cons. by rewrite Hs.
Qed.

Lemma Map_set_new {V} k (v : V) m :
  k ∉ m.*1 → Js.Map_set k v m = m ++ [(k, v)].
Proof.
  induction m as [|[k' v'] m IH]; intros Hk; simpl; [done|].
  rewrite fmap_cons, not_elem_of_cons in Hk. simpl in Hk.
  destruct Hk as [Hne Hk].
  apply String.eqb_neq in Hne. rewrite Hne. by rewrite IH.
Qed.

Lemma Map_set_keys_old {V} k (v : V) m :
  k ∈ m.*1 → (Js.Map_set k v m).*1 = m.*1.
Proof.
  induction m as [|[k' v'] m IH]; intros Hk; simpl.
  - by apply elem_of_nil in Hk.
  - destruct (String.eqb k k') eqn:E.
    + apply String.eqb_eq in E as ->. done.
    + apply String.eqb_neq in E. rewrite fmap_cons, elem_of_cons in Hk.
      simpl in Hk. destruct Hk as [?|Hk]; [done|].
      rewrite !fmap_cons. f_equal. by apply IH.
Qed.

(** The keys of a map built by [set] are the distinct keys set, in the
    order they were first set. *)
Lemma foldl_set_keys {A V} (key : A → string) (val : A → V) l : ∀ m,
  (foldl (λ m a, Js.Map_set (key a) (val a) m) m l).*1
  = m.*1 ++ Js.distinct m.*1 (key <$> l).
Proof.
  induction l as [|a l IH]; intros m; simpl; [by rewrite app_nil_r|].
  rewrite IH. case_bool_decide as Hk.
  - by rewrite Map_set_keys_old.
  - rewrite Map_set_new by done. rewrite fmap_app, <- app_assoc. simpl.
    do 2 f_equal. apply distinct_ext. intros x.
    rewrite elem_of_app, !elem_of_cons, elem_of_nil. tauto.
Qed.

Lemma Map_get_elem_of {V} (m : Js.Map V) k v :
  NoDup m.*1 → (k, v) ∈ m → Js.Map_get k m = Some v.
Proof.
  induction m as [|[k' v'] m IH]; intros Hnd Hin.
  - by apply elem_of_nil in Hin.
  - rewrite fmap_cons in Hnd. apply NoDup_cons in Hnd as [Hk' Hnd].
    apply elem_of_cons in Hin as [[= -> ->]|Hin]; simpl.
    + by rewrite String.eqb_refl.
    + destruct (String.eqb k k') eqn:E; [|by apply IH].
      apply String.eqb_eq in E as ->. exfalso. apply Hk'.
      apply list_elem_of_fmap. by exists (k', v).
Qed.

(** A single-character separator: splitting what [join] made gives the
    pieces back when no piece holds the separator. *)
Lemma split_no_sep c s :
  has_char c s = false → Js.split (String c EmptyString) s = [s].
Proof.
  unfold Js.split. induction s as [|c' s IH]; intros Hs; [done|].
  simpl in Hs. apply orb_false_iff in Hs as [Hc Hs].
  cbn [Js.split_go String.prefix].
  destruct (Ascii.ascii_dec c c') as [->|_].
  { by rewrite Ascii.eqb_refl in Hc. }
  by rewrite IH.
Qed.

Lemma split_app_sep c a b :
  has_char c a = false →
  Js.split (String c EmptyString) (a +:+ String c EmptyString +:+ b)
  = a :: Js.split (String c EmptyString) b.
Proof.
  unfold Js.split. induction a as [|c' a IH]; intros Ha.
  - change (EmptyString +:+ String c EmptyString +:+ b) with (String c b).
    cbn [Js.split_go String.prefix].
    destruct (Ascii.ascii_dec c c) as [_|?]; [|done].
    replace (String.prefix EmptyString b) with true by (by destruct b).
    done.
  - simpl in Ha. apply orb_false_iff in Ha as [Hc Ha].
    rewrite JsFacts.append_String. cbn [Js.split_go String.prefix].
    destruct (Ascii.ascii_dec c c') as [->|_].
    { by rewrite Ascii.eqb_refl in Hc. }
    by rewrite IH.
Qed.

Lemma split_join c l :
  l ≠ [] → Forall (λ s, has_char c s = false) l →
  Js.split (String c EmptyString) (Js.join (String c EmptyString) l) = l.
Proof.
  intros Hne Hl. induction Hl as [|s l Hs Hl IH]; [done|].
  destruct l as [|s' l].
  - by apply split_no_sep.
  - rewrite JsFacts.join_cons_cons, split_app_sep by done.
    by rewrite IH.
Qed.


Lemma length_app_gt pre base suf :
  pre ≠ EmptyString → pre +:+ base +:+ suf ≠ base.
Proof.
  intros Hpre Heq. apply (f_equal String.length) in Heq.
  rewrite !StringFacts.length_app in Heq.
  destruct pre; [done|]. simpl in Heq. lia.
Qed.

End MoreJsFacts.

(** ** Further facts about the client factory *)

Module MoreClientFacts.
Import HttpClientFactory.

Lemma omap_nil_iff {A B} (f : A → option B) l :
  omap f l = [] ↔ Forall (λ x, f x = None) l.
Proof.
  induction l as [|x l IH].
  - split; [constructor|done].
  - change (omap f (x :: l))
      with (match f x with Some y => y :: omap f l | None => omap f l end).
    destruct (f x) eqn:E.
    + split; [done|]. intros Hf. apply Forall_cons in Hf as [Hx _]. congruence.
    + rewrite IH. split; [by constructor|]. by intros [_ ?]%Forall_cons.
Qed.

Lemma omap_ext_keys {A B} (f : string * A → option B) (g : string → option B) l :
  Forall (λ e, f e = g e.1) l → omap f l = omap g l.*1.
Proof.
  induction 1 as [|e l He _ IH]; [done|].
  rewrite fmap_cons.
  change (omap f (e :: l))
    with (match f e with Some y => y :: omap f l | None => omap f l end).
  change (omap g (e.1 :: l.*1))
    with (match g e.1 with Some y => y :: omap g l.*1 | None => omap g l.*1 end).
  by rewrite He, IH.
Qed.

Lemma last_filter_elem {A} (P : A → Prop) `{!∀ x, Decision (P x)} l x :
  last (filter P l) = Some x → x ∈ l ∧ P x.
Proof.
  intros Hl. apply last_Some in Hl as [l' Hl].
  assert (x ∈ filter P l) as Hx.
  { rewrite Hl. apply elem_of_app. right. by left. }
  by apply list_elem_of_filter in Hx as [? ?].
Qed.

Lemma last_filter_is_Some {A} (P : A → Prop) `{!∀ x, Decision (P x)} l x :
  x ∈ l → P x → is_Some (last (filter P l)).
Proof.
  intros Hx HP. destruct (last (filter P l)) eqn:E; [by eexists|].
  apply last_None in E. exfalso.
  by apply (filter_nil_not_elem_of P l x).
Qed.

Section WithImports.
Context `{Imports}.

Lemma paramsByName_keys service method :
  (paramsByName service method).*1
  = Js.distinct [] (param_name <$> parameters method).
Proof.
  unfold paramsByName, Js.new_Map. rewrite foldl_fmap. simpl.
  by rewrite (MoreJsFacts.foldl_set_keys param_name
                (λ p, (p, getHttpParameter service (method_name method)
                            (param_name p)))).
Qed.

Lemma paramsByName_NoDup service method :
  NoDup (paramsByName service method).*1.
Proof. rewrite paramsByName_keys. apply MoreJsFacts.distinct_NoDup. Qed.

(** An entry holds the last parameter declared with its key, and what the
    key resolves to. *)
Lemma paramsByName_entry service method e :
  e ∈ paramsByName service method →
  last (filter (λ p, param_name p = e.1) (parameters method)) = Some e.2.1
  ∧ e.2.2 = getHttpParameter service (method_name method) e.1.
Proof.
  destruct e as [k [p hp]]. intros He. simpl.
  apply MoreJsFacts.Map_get_elem_of in He; [|apply paramsByName_NoDup].
  rewrite ClientFacts.paramsByName_get in He.
  destruct (last _) as [p'|] eqn:Hlast; [|done].
  simpl in He. injection He as -> <-.
  apply last_filter_elem in Hlast as [_ <-]. done.
Qed.

Lemma foldl_query_set (l : Js.Map (Parameter_ * option HttpParameter)) :
  NoDup l.*1 →
  ∀ acc : Js.Map (Parameter_ * HttpParameter),
    (∀ k, k ∈ acc.*1 → k ∉ l.*1) →
    foldl (λ map e,
             match e.2.2 with
             | Some queryParam =>
                 if String.eqb (hparam_in queryParam) "query"
                 then Js.Map_set e.1 (e.2.1, queryParam) map
                 else map
             | None => map
             end) acc l
    = acc ++ omap (λ e,
                     match e.2.2 with
                     | Some queryParam =>
                         if String.eqb (hparam_in queryParam) "query"
                         then Some (e.1, (e.2.1, queryParam))
                         else None
                     | None => None
                     end) l.
Proof.
  induction l as [|[k [p hp]] l IH]; intros Hnd acc Hacc.
  { simpl. by rewrite app_nil_r. }
  rewrite fmap_cons in Hnd. apply NoDup_cons in Hnd as [Hk Hnd].
  assert (∀ k', k' ∈ acc.*1 → k' ∉ l.*1) as Hacc'.
  { intros k' Hk' Hin. apply (Hacc k' Hk'). rewrite fmap_cons. by right. }
  cbn [foldl omap list_omap fst snd].
  destruct hp as [queryParam|]; [|by apply IH].
  destruct (String.eqb (hparam_in queryParam) "query"); [|by apply IH].
  rewrite MoreJsFacts.Map_set_new.
  - rewrite IH; [by rewrite <- app_assoc|done|].
    intros k' Hk'. rewrite fmap_app, elem_of_app in Hk'.
    destruct Hk' as [Hk'|Hk']; [by apply Hacc'|].
    apply list_elem_of_singleton in Hk'. simpl in Hk'. by subst.
  - intros Hin. apply (Hacc k Hin). rewrite fmap_cons. by left.
Qed.

Lemma query_map_omap service method :
  query_map service method
  = omap (query_entry_of service method)
         (Js.distinct [] (param_name <$> parameters method)).
Proof.
  unfold query_map.
  rewrite foldl_query_set; [|apply paramsByName_NoDup|by intros k ?%elem_of_nil].
  rewrite app_nil_l, <- (paramsByName_keys service method).
  apply omap_ext_keys. apply Forall_forall. intros e He.
  apply paramsByName_entry in He as [Hlast Hhp].
  unfold query_entry_of. rewrite Hlast, <- Hhp.
  destruct e as [k [p hp]]; simpl. by destruct hp.
Qed.

Lemma query_entry_of_None service method name :
  name ∈ param_name <$> parameters method →
  query_entry_of service method name = None
  ↔ resolves_to service method "query" name = false.
Proof.
  intros Hname. apply list_elem_of_fmap in Hname as (p & -> & Hp).
  unfold query_entry_of, resolves_to.
  destruct (last_filter_is_Some (λ q, param_name q = param_name p)
              (parameters method) p Hp eq_refl) as [q ->].
  destruct (getHttpParameter _ _ _) as [hp|]; [|done].
  by destruct (String.eqb (hparam_in hp) "query").
Qed.

Lemma query_keys (names : list string) service method :
  Forall (λ n, n ∈ param_name <$> parameters method) names →
  (omap (query_entry_of service method) names).*1
  = filter (λ n, resolves_to service method "query" n = true) names.
Proof.
  induction 1 as [|n names Hn _ IH]; [done|].
  rewrite filter_cons.
  change (omap (query_entry_of service method) (n :: names))
    with (match query_entry_of service method n with
          | Some y => y :: omap (query_entry_of service method) names
          | None => omap (query_entry_of service method) names
          end).
  pose proof (query_entry_of_None service method n Hn) as Hnone.
  destruct (query_entry_of service method n) as [[k v]|] eqn:E.
  - destruct (resolves_to service method "query" n) eqn:R.
    + rewrite decide_True by done. rewrite fmap_cons, IH. f_equal.
      unfold query_entry_of in E.
      destruct (last _); [|done]. destruct (getHttpParameter _ _ _); [|done].
      destruct (String.eqb _ _); [|done]. by injection E as <- _.
    + by pose proof (proj2 Hnone eq_refl).
  - rewrite (proj1 Hnone eq_refl). by rewrite decide_False.
Qed.

(** Without any resolved parameter, nothing is read off the entries. *)
Lemma paramsByName_unbound service method :
  (∀ p, p ∈ parameters method →
        getHttpParameter service (method_name method) (param_name p) = None) →
  Forall (λ e, e.2.2 = None) (paramsByName service method).
Proof.
  intros Hnone. apply Forall_forall. intros e He.
  apply paramsByName_entry in He as [Hlast ->].
  apply last_filter_elem in Hlast as [Hin <-]. by apply Hnone.
Qed.

(** Lines read off the entries that resolve to one location: there are
    none exactly when no parameter resolves to that location. *)
Lemma omap_paramsByName_nil_iff {B} service method location
    (f : string * (Parameter_ * option HttpParameter) → option B) :
  (∀ e, f e = None
        ↔ match e.2.2 with
          | Some httpParam => String.eqb (hparam_in httpParam) location
          | None => false
          end = false) →
  omap f (paramsByName service method) = []
  ↔ ∀ p, p ∈ parameters method →
         resolves_to service method location (param_name p) = false.
Proof.
  intros Hf. etrans; [apply omap_nil_iff|]. rewrite Forall_forall. split.
  - intros Hall p Hp.
    assert (param_name p ∈ (paramsByName service method).*1) as Hk.
    { rewrite paramsByName_keys. apply MoreJsFacts.distinct_elem_of.
      split; [|by intros ?%elem_of_nil]. apply list_elem_of_fmap. eauto. }
    apply list_elem_of_fmap in Hk as (e & He1 & He).
    pose proof (Hall e He) as Hnone. apply Hf in Hnone.
    apply paramsByName_entry in He as [_ Hhp].
    unfold resolves_to. by rewrite He1, <- Hhp.
  - intros Hall e He. apply Hf.
    apply paramsByName_entry in He as [Hlast ->].
    apply last_filter_elem in Hlast as [Hin Hname].
    specialize (Hall _ Hin). unfold resolves_to in Hall. by rewrite Hname in Hall.
Qed.

Lemma http_parameter_map_entries service :
  http_parameter_map service
  = foldl (λ map b, <[b.1 := b.2]> map) ∅ (http_parameter_entries service).
Proof.
  unfold http_parameter_map, http_parameter_entries.
  generalize (∅ : gmap string HttpParameter).
  induction (allParameters service) as [|[m [hp|]] l IH]; intros acc; simpl;
    [done|apply IH..].
Qed.

Lemma getHttpParameter_last_entry service m p :
  getHttpParameter service m p
  = snd <$> last (filter (λ b, b.1 = key m p) (http_parameter_entries service)).
Proof.
  unfold getHttpParameter, getHttpParameter_cached. cbn [fst].
  rewrite http_parameter_map_entries.
  rewrite (JsFacts.lookup_foldl_insert fst snd).
  rewrite lookup_empty. by destruct (last _).
Qed.

End WithImports.
End MoreClientFacts.

(** ** Further facts about the mapper factory *)

Module MoreMapperFacts.
Import MapperFactory.

Ltac converting_case E :=
  apply String.eqb_eq in E; subst; left;
  split; [vm_compute; reflexivity | simpl; by apply MoreJsFacts.length_app_gt].

(** The default table converts exactly the eight primitives of
    [converting]; a conversion is never the field expression itself. *)
Lemma default_cast_cases primitive baseCase :
  (converting primitive = true ∧ default_cast primitive baseCase ≠ baseCase)
  ∨ (converting primitive = false ∧ default_cast primitive baseCase = baseCase).
Proof.
  unfold default_cast.
  destruct (String.eqb primitive "boolean") eqn:E1; [converting_case E1|].
  destruct (String.eqb primitive "date") eqn:E2; [converting_case E2|].
  destruct (String.eqb primitive "date-time") eqn:E3; [converting_case E3|].
  destruct (String.eqb primitive "double") eqn:E4; [converting_case E4|].
  destruct (String.eqb primitive "float") eqn:E5; [converting_case E5|].
  destruct (String.eqb primitive "number") eqn:E6; [converting_case E6|].
  destruct (String.eqb primitive "integer") eqn:E7; [converting_case E7|].
  destruct (String.eqb primitive "long") eqn:E8; [converting_case E8|].
  right. split; [|reflexivity].
  apply bool_decide_eq_false_2. intros Hin.
  repeat (apply elem_of_cons in Hin as [->|Hin]; [done|]).
  by apply elem_of_nil in Hin.
Qed.

End MoreMapperFacts.

(** ** Further properties of the generator *)

Section FurtherProperties.
Context `{Imports}.
Import HttpClientFactory MapperFactory.

(** X1. Sorting the parameters neither loses nor repeats one, and sorting
    a sorted list changes nothing. *)
Theorem sortParameters_permutes_and_is_idempotent (ps : list Parameter_) :
  sortParameters ps ≡ₚ ps
  ∧ sortParameters (sortParameters ps) = sortParameters ps.
Proof.
  split; [apply MoreJsFacts.sort_Permutation|].
  rewrite !ClientFacts.sortParameters_required_first. unfold required_first.
  rewrite !filter_app, !list_filter_filter.
  rewrite <- !app_assoc.
  assert (∀ l : list Parameter_,
            filter (λ p, isRequired (param_type p) = false
                         ∧ isRequired (param_type p) = true) l = []) as E1.
  { intros l. induction l as [|p l IH]; [done|].
    rewrite filter_cons, decide_False; [done|]. intros [? ?]. congruence. }
  assert (∀ l : list Parameter_,
            filter (λ p, isRequired (param_type p) = true
                         ∧ isRequired (param_type p) = false) l = []) as E2.
  { intros l. induction l as [|p l IH]; [done|].
    rewrite filter_cons, decide_False; [done|]. intros [? ?]. congruence. }
  rewrite E1, E2. simpl.
  f_equal; apply list_filter_iff; tauto.
Qed.

(** X2. The methods of an interface are written in sorted order without
    losing or repeating one: the lines of every method are part of the
    class body. *)
Theorem every_method_is_written (service : Service) (options : Options)
    (int : Interface) (method : Method) :
  method ∈ methods int →
  sorted_methods int ≡ₚ methods int
  ∧ ∃ before after,
      class_body service options int
      = before ++ method_lines service options method ++ after.
Proof.
  intros Hm.
  assert (sorted_methods int ≡ₚ methods int) as Hperm
    by apply MoreJsFacts.sort_Permutation.
  split; [exact Hperm|].
  rewrite <- Hperm in Hm. apply list_elem_of_split in Hm as (l1 & l2 & Hl).
  unfold class_body. rewrite Hl, bind_app, bind_cons.
  rewrite (app_assoc _ (buildInitializer int)).
  rewrite (app_assoc _ (l1 ≫= method_lines service options)).
  by eexists _, _.
Qed.

(** X3. No query is assembled exactly when no parameter of the method
    resolves to the location [query]. *)
Theorem buildQuery_empty_iff (service : Service) (method : Method) :
  buildQuery service method = []
  ↔ ∀ p, p ∈ parameters method →
         resolves_to service method "query" (param_name p) = false.
Proof.
  assert (buildQuery service method = [] ↔ query_map service method = []) as ->.
  { unfold buildQuery. destruct (query_map service method); [done|].
    split; [|done]. simpl. done. }
  rewrite MoreClientFacts.query_map_omap.
  etrans; [apply MoreClientFacts.omap_nil_iff|].
  rewrite Forall_forall. split.
  - intros Hall p Hp.
    assert (param_name p ∈ param_name <$> parameters method) as Hn
      by (apply list_elem_of_fmap; eauto).
    apply MoreClientFacts.query_entry_of_None; [done|].
    apply Hall. apply MoreJsFacts.distinct_elem_of. split; [done|].
    by intros ?%elem_of_nil.
  - intros Hall n Hn. apply MoreJsFacts.distinct_elem_of in Hn as [Hn _].
    apply MoreClientFacts.query_entry_of_None; [done|].
    apply list_elem_of_fmap in Hn as (p & -> & Hp). by apply Hall.
Qed.

(** X4. The query hash has one entry for each distinct parameter name that
    resolves to [query], in the order the names are first declared: its
    keys are distinct, and the entry of a name holds the last parameter
    declared with it. *)
Theorem query_hash_entries (service : Service) (method : Method) :
  query_map service method
  = omap (query_entry_of service method)
         (Js.distinct [] (param_name <$> parameters method))
  ∧ (query_map service method).*1
    = filter (λ n, resolves_to service method "query" n = true)
             (Js.distinct [] (param_name <$> parameters method))
  ∧ NoDup (query_map service method).*1.
Proof.
  split; [apply MoreClientFacts.query_map_omap|].
  assert ((query_map service method).*1
          = filter (λ n, resolves_to service method "query" n = true)
                   (Js.distinct [] (param_name <$> parameters method))) as Hkeys.
  { rewrite MoreClientFacts.query_map_omap.
    apply MoreClientFacts.query_keys. apply Forall_forall. intros n Hn.
    by apply MoreJsFacts.distinct_elem_of in Hn as [Hn _]. }
  split; [exact Hkeys|].
  rewrite Hkeys. apply NoDup_filter, MoreJsFacts.distinct_NoDup.
Qed.

(** X5. The map the builders read the parameters from has the distinct
    parameter names as keys, in the order they are first declared; a name
    that is declared more than once denotes the last parameter declared
    with it, together with what the name resolves to. *)
Theorem paramsByName_keeps_last_declared (service : Service) (method : Method) :
  (paramsByName service method).*1
  = Js.distinct [] (param_name <$> parameters method)
  ∧ ∀ name,
      Js.Map_get name (paramsByName service method)
      = (λ p, (p, getHttpParameter service (method_name method) (param_name p)))
          <$> last (filter (λ p, param_name p = name) (parameters method)).
Proof.
  split; [apply MoreClientFacts.paramsByName_keys|].
  apply ClientFacts.paramsByName_get.
Qed.

(** X6. [getHttpParameter] looks a pair of names up under their snake-case
    forms and yields the last enumerated binding stored under that key,
    none if there is none; contexts without a binding are skipped, and
    names with the same snake-case forms get the same answer. *)
Theorem getHttpParameter_last_entry_wins (service : Service) :
  (∀ m p,
     getHttpParameter service m p
     = snd <$> last (filter (λ b, b.1 = key m p) (http_parameter_entries service)))
  ∧ (∀ m m' p p',
       snake m = snake m' → snake p = snake p' →
       getHttpParameter service m p = getHttpParameter service m' p').
Proof.
  split; [apply MoreClientFacts.getHttpParameter_last_entry|].
  intros m m' p p' Hm Hp.
  rewrite !MoreClientFacts.getHttpParameter_last_entry.
  unfold key. by rewrite Hm, Hp.
Qed.

(** X7. [getHttp] finds nothing exactly when no enumerated HTTP method has
    the snake-case name of the method; no definition is written then. *)
Theorem getHttp_none_iff (service : Service) (method : Method) :
  (getHttp service (method_name method) = None
   ↔ Forall (λ b, snake (hmethod_name b.1) ≠ snake (method_name method))
            (bindings service))
  ∧ (getHttp service (method_name method) = None →
     buildDefinition service method = []).
Proof.
  split.
  - rewrite ClientFacts.getHttp_last_binding. unfold last_binding.
    rewrite last_None. split.
    + intros Hnil. apply Forall_forall. intros b Hb Hname.
      by apply (filter_nil_not_elem_of _ _ b Hnil).
    + intros Hall. induction Hall as [|b l Hb _ IH]; [done|].
      by rewrite filter_cons, decide_False.
  - intros Hnone. unfold buildDefinition. by rewrite Hnone.
Qed.

(** X8. When no parameter of a method resolves to a binding, the
    parameters take no part in the request: no query, no body, only the
    API-key headers, and the path template word for word in the URI. *)
Theorem unbound_parameters_are_dropped (service : Service) (method : Method)
    (httpPath : HttpPath) :
  (∀ p, p ∈ parameters method →
        getHttpParameter service (method_name method) (param_name p) = None) →
  buildQuery service method = []
  ∧ buildBody service method = []
  ∧ buildHeaders service method = api_key_headers method
  ∧ buildUri service httpPath method
    = "#{@" +:+ apiRoot +:+ "}/v" +:+ Js.string_of_N (majorVersion service)
      +:+ path httpPath.
Proof.
  intros Hnone.
  pose proof (MoreClientFacts.paramsByName_unbound service method Hnone) as Hpbn.
  split; [|split; [|split]].
  - apply buildQuery_empty_iff. intros p Hp. unfold resolves_to.
    by rewrite Hnone.
  - unfold buildBody. apply MoreClientFacts.omap_nil_iff.
    eapply Forall_impl; [exact Hpbn|]. by intros e ->.
  - unfold buildHeaders, api_key_headers.
    rewrite <- (app_nil_r (omap _ (concat (security method)))) at 2.
    f_equal. apply MoreClientFacts.omap_nil_iff.
    eapply Forall_impl; [exact Hpbn|]. by intros e ->.
  - unfold buildUri.
    assert (substitute_segment service method <$> Js.split "/" (path httpPath)
            = Js.split "/" (path httpPath)) as ->;
      [|by rewrite JsFacts.join_split].
    rewrite <- (list_fmap_id (Js.split "/" (path httpPath))) at 2.
    apply list_fmap_ext. intros _ seg _. simpl.
    destruct (ClientFacts.substitute_segment_result service method seg)
      as [p (name & httpParam & _ & _ & Hp & Hhp & _)|_]; [|done].
    apply MoreClientFacts.last_filter_elem in Hp as [Hp _].
    rewrite Hnone in Hhp by done. done.
Qed.

(** X9. The initializer takes one credential for each distinct scheme name
    the methods of the interface refer to: no name twice, none left out. *)
Theorem initializer_credentials_are_distinct (int : Interface) :
  ∃ names,
    NoDup names
    ∧ (∀ n, n ∈ names ↔ n ∈ scheme_names int)
    ∧ buildInitializer int
      = ["sig { params(" +:+ apiRoot +:+ ": String"
         +:+ (match names with [] => EmptyString | _ => ", " end)
         +:+ Js.join ", " ((λ n, n +:+ ": String") <$> names) +:+ ").void }"]
        ++ block ("def initialize(" +:+ apiRoot +:+ ":"
                  +:+ (match names with [] => EmptyString | _ => ", " end)
                  +:+ Js.join ", " ((λ n, n +:+ ":") <$> names) +:+ ")")
                 (["@" +:+ apiRoot +:+ " = " +:+ apiRoot]
                  ++ ((λ n, "@" +:+ n +:+ " = " +:+ n) <$> names)).
Proof.
  exists (Js.distinct [] (scheme_names int)).
  split; [apply MoreJsFacts.distinct_NoDup|]. split; [|reflexivity].
  intros n. rewrite MoreJsFacts.distinct_elem_of. split; [by intros [? _]|].
  intros Hn. split; [done|]. by intros ?%elem_of_nil.
Qed.

(** X10. The contents of a client file can be cut back into the lines
    they were made of: when no line holds a line feed, splitting the
    joined text at the line feeds gives the lines. *)
Theorem from_lines_split (lines : list string) :
  lines ≠ [] →
  Forall (λ line, has_char (Ascii.ascii_of_nat 10) line = false) lines →
  Js.split Js.LF (from_lines lines) = lines.
Proof. intros Hne Hl. by apply MoreJsFacts.split_join. Qed.

(** X11. Without a custom caster, the cast of a primitive property is
    guarded by the test for a string exactly for the eight primitives the
    default table converts; every other primitive is read as it is. *)
Theorem guard_exactly_for_converting_primitives (options : Options)
    (typeName baseCase : string) :
  override_for options typeName = None →
  buildPropCast options typeName true baseCase
  = if converting typeName
    then guarded baseCase (default_cast typeName baseCase)
    else baseCase.
Proof.
  intros Hover.
  unfold buildPropCast, buildPrimitiveCast, guarded. rewrite Hover.
  destruct (MoreMapperFacts.default_cast_cases typeName baseCase)
    as [[-> Hne]|[-> Heq]].
  - apply String.eqb_neq in Hne. by rewrite Hne.
  - by rewrite Heq, String.eqb_refl.
Qed.


(** X13. The module of mapping functions is empty exactly for a service
    without types and enums. *)
Theorem module_body_empty_iff (service : Service) (options : Options) :
  module_body service options = []
  ↔ types service = [] ∧ enums service = [].
Proof.
  rewrite MapperFacts.module_body_separated. unfold mapping_functions. split.
  - intros Hnil.
    destruct (types service) as [|t ts]; [|by destruct ts].
    destruct (enums service) as [|e es]; [done|by destruct es].
  - by intros [-> ->].
Qed.

(** X14. [getParamName] reads the name of a placeholder: it answers
    [name] exactly for the segments [:name] and [{name}], and nothing for
    any other segment. *)
Theorem getParamName_reads_placeholders (seg : string) :
  (∀ name, getParamName seg = Some name ↔ is_placeholder seg name)
  ∧ (getParamName seg = None ↔ ∀ name, ¬ is_placeholder seg name).
Proof.
  split; [intros name; apply ClientFacts.getParamName_placeholder|].
  split.
  - intros Hnone name Hp.
    apply ClientFacts.getParamName_placeholder in Hp. congruence.
  - intros Hno. destruct (getParamName seg) as [name|] eqn:E; [|done].
    apply ClientFacts.getParamName_placeholder in E. by apply Hno in E.
Qed.

(** X15. A body is assembled exactly when a parameter of the method
    resolves to the location [body]; beyond the API-key headers, headers
    are set exactly when a parameter resolves to the location [header]. *)
Theorem body_and_headers_follow_the_bindings (service : Service)
    (method : Method) :
  (buildBody service method = []
   ↔ ∀ p, p ∈ parameters method →
          resolves_to service method "body" (param_name p) = false)
  ∧ ∃ lines,
      buildHeaders service method = api_key_headers method ++ lines
      ∧ (lines = []
         ↔ ∀ p, p ∈ parameters method →
                resolves_to service method "header" (param_name p) = false).
Proof.
  split.
  - unfold buildBody. apply MoreClientFacts.omap_paramsByName_nil_iff.
    intros [k [p [hp|]]]; simpl; [|done].
    by destruct (String.eqb (hparam_in hp) "body").
  - eexists. split; [reflexivity|].
    apply MoreClientFacts.omap_paramsByName_nil_iff.
    intros [k [p [hp|]]]; simpl; [|done].
    by destruct (String.eqb (hparam_in hp) "header").
Qed.

(** X16. The module of mapping functions holds, in this order, the
    DTO-to-struct and the struct-to-DTO function of every type and then the
    DTO-to-enum and the enum-to-DTO function of every enum, with exactly
    one blank line between two neighbours and none before the first or
    after the last. *)
Theorem module_body_is_the_separated_functions (service : Service)
    (options : Options) :
  module_body service options
  = separated
      ((types service ≫= λ type,
          [dto_to_struct service options type; struct_to_dto type])
       ++ (enums service ≫= λ e,
             [dto_to_enum service options e; enum_to_dto e])).
Proof. apply MapperFacts.module_body_separated. Qed.

End FurtherProperties.

(** ** The further properties on the example service *)

Section FurtherOnExamples.
Import Examples MoreExamples HttpClientFactory MapperFactory.

(** X2, an instance: the method [ping] of the interface [widgets]. *)
Lemma every_method_is_written_witness :
  ping ∈ methods widgets
  ∧ ∃ before after,
      class_body (H := helpers) shop None widgets
      = before ++ method_lines (H := helpers) shop None ping ++ after.
Proof.
  assert (ping ∈ methods widgets) as Hin.
  { simpl. rewrite !elem_of_cons. right. right. by left. }
  split; [exact Hin|].
  exact (proj2 (every_method_is_written (H := helpers) shop None widgets ping Hin)).
Defined.

(** X6, an instance: [getWidget] and [get_widget] resolve [id] alike. *)
Lemma getHttpParameter_last_entry_wins_witness :
  Reference.snake "getWidget" = Reference.snake "get_widget"
  ∧ getHttpParameter (H := helpers) shop "getWidget" "id"
    = getHttpParameter (H := helpers) shop "get_widget" "id".
Proof.
  assert (Reference.snake "getWidget" = Reference.snake "get_widget") as Hm
    by (vm_compute; reflexivity).
  split; [exact Hm|].
  exact (proj2 (getHttpParameter_last_entry_wins (H := helpers) shop)
           "getWidget" "get_widget" "id" "id" Hm eq_refl).
Defined.

(** X7, an instance: [ping] has no binding. *)
Lemma getHttp_none_iff_witness :
  getHttp (H := helpers) shop (method_name ping) = None
  ∧ buildDefinition (H := helpers) shop ping = [].
Proof.
  assert (getHttp (H := helpers) shop (method_name ping) = None) as Hnone
    by (vm_compute; reflexivity).
  split; [exact Hnone|].
  exact (proj2 (getHttp_none_iff (H := helpers) shop ping) Hnone).
Defined.

(** X8, an instance: [getWidget] when no parameter binding is enumerated;
    the placeholder [:id] stays in the URI. *)
Lemma unbound_parameters_are_dropped_witness :
  (∀ p, p ∈ parameters getWidget →
        getHttpParameter (H := unbound_helpers) shop (method_name getWidget)
          (param_name p) = None)
  ∧ buildQuery (H := unbound_helpers) shop getWidget = []
  ∧ buildUri (H := unbound_helpers) shop widget_path getWidget
    = "#{@api_root}/v1/widgets/:id".
Proof.
  assert (∀ p, p ∈ parameters getWidget →
               getHttpParameter (H := unbound_helpers) shop (method_name getWidget)
                 (param_name p) = None) as Hnone.
  { intros p _. reflexivity. }
  split; [exact Hnone|].
  destruct (unbound_parameters_are_dropped (H := unbound_helpers) shop getWidget
              widget_path Hnone) as (Hq & _ & _ & Hu).
  split; [exact Hq|]. rewrite Hu. vm_compute. reflexivity.
Defined.

(** X10, an instance: three lines, one of them empty. *)
Lemma from_lines_split_witness :
  ["module Shop"; EmptyString; "end"] ≠ []
  ∧ Forall (λ line, has_char (Ascii.ascii_of_nat 10) line = false)
           ["module Shop"; EmptyString; "end"]
  ∧ Js.split Js.LF (from_lines ["module Shop"; EmptyString; "end"])
    = ["module Shop"; EmptyString; "end"].
Proof.
  assert (["module Shop"; EmptyString; "end"] ≠ []) as Hne by discriminate.
  assert (Forall (λ line, has_char (Ascii.ascii_of_nat 10) line = false)
                 ["module Shop"; EmptyString; "end"]) as Hl
    by (repeat constructor).
  split; [exact Hne|]. split; [exact Hl|].
  exact (from_lines_split _ Hne Hl).
Defined.

(** X11, an instance: an [integer] property without options. *)
Lemma guard_exactly_for_converting_primitives_witness :
  override_for None "integer" = None
  ∧ buildPropCast (H := helpers) None "integer" true "dto['count']"
    = "dto['count'].is_a?(String) ? Integer(dto['count'], 10) : dto['count']".
Proof.
  split; [reflexivity|].
  exact (guard_exactly_for_converting_primitives (H := helpers)
           None "integer" "dto['count']" eq_refl).
Defined.


(** The [lib] option [./gen/../lib] gives the folder [gen/lib]. *)
Example libFolder_drops_dot_segments :
  NameFactory.libFolder (H := helpers) lib_options = ["gen"; "lib"].
Proof. vm_compute. reflexivity. Qed.

End FurtherOnExamples.
